(** * A configuration-driven ETL pipeline (app.py): model and properties

    The development embeds [app.py]: the two table transformations [rename]
    and [set_types], the method [ETL.run], which applies the configured
    per-table transformations, performs the configured joins and hands the
    last join to the destination, and the CSV source with its factory.

    [app.py] is written against pandas.  The pandas operations it calls
    ([DataFrame.rename], [df[k]], [df[k] = ...], [pd.to_numeric],
    [DataFrame.dropna], [astype], [DataFrame.merge], [pd.concat],
    [drop_duplicates]) are modelled here on tables whose cells are integers,
    strings or missing; the two that depend on pandas' own parsing and
    casting tables ([pd.to_numeric] and [Series.astype], each on one column)
    are parameters of the model.  Python exceptions are values: a
    computation returns [Ok v] or [Raise e]. *)

From Stdlib Require Import ZArith String List Bool Lia.
From stdpp Require Import base option list gmap strings.

Open Scope string_scope.
Open Scope list_scope.

(** ** Exceptions and results *)

(** A raised Python exception: the name of its class and its argument. *)
Record exn := Exn { exn_class : string; exn_arg : string }.

Definition KeyError (key : string) : exn := Exn "KeyError" key.
Definition NameError (name : string) : exn := Exn "NameError" name.
Definition UnboundLocalError (var : string) : exn := Exn "UnboundLocalError" var.
Definition ValueError (msg : string) : exn := Exn "ValueError" msg.
Definition TypeError (msg : string) : exn := Exn "TypeError" msg.

Inductive result (A : Type) : Type :=
| Ok (a : A)
| Raise (e : exn).
Arguments Ok {A} a.
Arguments Raise {A} e.

#[global] Instance result_ret : MRet result := fun _ a => Ok a.
#[global] Instance result_bind : MBind result := fun _ _ f m =>
  match m with
  | Ok a => f a
  | Raise e => Raise e
  end.

(** ** Tables *)

(** A cell of a table.  [VMissing] stands for pandas' NaN/None. *)
Inductive value :=
| VInt (z : Z)
| VStr (s : string)
| VMissing.

#[global] Instance value_eq_dec : EqDecision value.
Proof. solve_decision. Defined.

Abbreviation row := (list value).

(** A pandas DataFrame: the column labels, and the rows in index order; the
    cell of column number [i] of a row is its [i]-th element. *)
Record DataFrame := mkDataFrame {
  columns : list string;
  rows : list row
}.

(** Every row has one cell per column. *)
Definition table_wf (df : DataFrame) : Prop :=
  Forall (fun r => length r = length (columns df)) (rows df).

Definition cell (r : row) (i : nat) : value := default VMissing (r !! i).

Definition isna (v : value) : bool :=
  match v with VMissing => true | _ => false end.
Definition notna (v : value) : bool := negb (isna v).

(** The position of the first column labelled [k]. *)
Fixpoint index_of (k : string) (cols : list string) : option nat :=
  match cols with
  | [] => None
  | c :: cols' => if String.eqb c k then Some 0 else S <$> index_of k cols'
  end.

(** The positions of all the columns labelled [k], in order; [n] is the
    position of the head of [cols]. *)
Fixpoint positions_from (k : string) (n : nat) (cols : list string) : list nat :=
  match cols with
  | [] => []
  | c :: cols' =>
      if String.eqb c k then n :: positions_from k (S n) cols'
      else positions_from k (S n) cols'
  end.

Definition positions (k : string) (cols : list string) : list nat :=
  positions_from k 0 cols.

(** The cell of the first column labelled [k]. *)
Definition column_cell (cols : list string) (k : string) (r : row) : value :=
  match index_of k cols with
  | Some i => cell r i
  | None => VMissing
  end.

(** Column number [i] of a table. *)
Definition column_at (df : DataFrame) (i : nat) : list value :=
  map (fun r => cell r i) (rows df).

(** What [df[k]] selects: one column when one column has the label, a frame
    of columns when several have it. *)
Inductive selection :=
| Series (col : list value)
| Frame (cols : list (list value)).

(** [df[k]] read: KeyError when no column has the label. *)
Definition getitem (df : DataFrame) (k : string) : result selection :=
  match positions k (columns df) with
  | [] => Raise (KeyError k)
  | [i] => Ok (Series (column_at df i))
  | ps => Ok (Frame (map (column_at df) ps))
  end.

(** The columns [cols] written, one after the other, at the positions
    [ps]. *)
Fixpoint set_columns (rs : list row) (ps : list nat) (cols : list (list value))
  : list row :=
  match ps, cols with
  | i :: ps', col :: cols' =>
      set_columns (zip_with (fun r v => <[i:=v]> r) rs col) ps' cols'
  | _, _ => rs
  end.

(** [df[k] = ...]: a series is written into every column that has the
    label, or appended as a new last column when none has it; a frame is
    written column by column into the columns that have the label, and must
    have as many columns as they are. *)
Definition setitem (df : DataFrame) (k : string) (sel : selection)
  : result DataFrame :=
  match sel, positions k (columns df) with
  | Series col, [] =>
      Ok (mkDataFrame (columns df ++ [k])
            (zip_with (fun r v => r ++ [v]) (rows df) col))
  | Series col, ps =>
      Ok (mkDataFrame (columns df)
            (set_columns (rows df) ps (replicate (length ps) col)))
  | Frame cols, ps =>
      if (length ps =? length cols)%nat
      then Ok (mkDataFrame (columns df) (set_columns (rows df) ps cols))
      else Raise (ValueError "Columns must be same length as key")
  end.

(** [df.dropna(subset=[k])]: keeps the rows that have no missing cell in the
    columns labelled [k], in order; KeyError for an unknown label. *)
Definition dropna (df : DataFrame) (k : string) : result DataFrame :=
  match positions k (columns df) with
  | [] => Raise (KeyError k)
  | ps =>
      Ok (mkDataFrame (columns df)
            (List.filter (fun r => forallb (fun i => notna (cell r i)) ps) (rows df)))
  end.

(** ** Configuration dictionaries *)

(** A JSON object with string values, as [json.load] returns it: a Python
    dict, which iterates in insertion order and holds each key once. *)
Definition dict := list (string * string).

Definition keys (d : dict) : list string := map fst d.
Definition values (d : dict) : list string := map snd d.

Fixpoint dict_get (d : dict) (k : string) : option string :=
  match d with
  | [] => None
  | (k', v) :: d' => if String.eqb k' k then Some v else dict_get d' k
  end.

(** [d[k]] *)
Definition dict_getitem (d : dict) (k : string) : result string :=
  match dict_get d k with
  | Some v => Ok v
  | None => Raise (KeyError k)
  end.

(** ** The transformations of app.py *)

(** [rename(df, parameters)] is [df.rename(columns=parameters)]: every label
    that is a key of [parameters] is replaced by its value, every other label
    is kept (pandas' default [errors='ignore']), and the cells are those of
    [df]. *)
Definition rename (df : DataFrame) (parameters : dict) : result DataFrame :=
  Ok (mkDataFrame
        (map (fun c => default c (dict_get parameters c)) (columns df))
        (rows df)).

Section SetTypes.

(** [pd.to_numeric(col, errors='coerce')] on one column: the column of the
    numbers the cells denote, in the one dtype pandas gives the whole column,
    with a missing cell wherever a cell denotes no number. *)
Variable to_numeric : list value -> list value.

(** [Series.astype(dtype)] on one column. *)
Variable astype : string -> list value -> result (list value).

(** [pd.to_numeric(df[k], errors='coerce')]: a frame is no argument of
    [pd.to_numeric]. *)
Definition pd_to_numeric (sel : selection) : result selection :=
  match sel with
  | Series col => Ok (Series (to_numeric col))
  | Frame _ => Raise (TypeError "arg must be a list, tuple, 1-d array, or Series")
  end.

(** The columns of a frame cast one after the other. *)
Fixpoint astype_columns (t : string) (cols : list (list value))
  : result (list (list value)) :=
  match cols with
  | [] => Ok []
  | col :: cols' =>
      col' ← astype t col;
      rest ← astype_columns t cols';
      Ok (col' :: rest)
  end.

(** [df[k].astype(t)]: [Series.astype], or [DataFrame.astype], which casts
    every column. *)
Definition selection_astype (t : string) (sel : selection) : result selection :=
  match sel with
  | Series col => col' ← astype t col; Ok (Series col')
  | Frame cols => cols' ← astype_columns t cols; Ok (Frame cols')
  end.

(** The body of the loop of [set_types], for the key [k].  The assignment
    [df[k] = ...] writes into the table the name [df] is bound to, which for
    the first keys is the caller's; [ETL.run] stores the returned table in
    place of the one it passed and stops at an exception, so the model keeps
    the returned table only. *)
Definition set_types_step (parameters : dict) (df : DataFrame) (k : string)
  : result DataFrame :=
  t ← dict_getitem parameters k;
  if String.eqb t "to_numeric" then
    sel ← getitem df k;
    num ← pd_to_numeric sel;
    df1 ← setitem df k num;
    dropna df1 k
  else
    sel ← getitem df k;
    cast ← selection_astype t sel;
    setitem df k cast.

Fixpoint set_types_loop (parameters : dict) (df : DataFrame) (ks : list string)
  : result DataFrame :=
  match ks with
  | [] => Ok df
  | k :: ks' =>
      df' ← set_types_step parameters df k;
      set_types_loop parameters df' ks'
  end.

Definition set_types (df : DataFrame) (parameters : dict) : result DataFrame :=
  set_types_loop parameters df (keys parameters).

End SetTypes.

(** ** Joins *)

(** The positions of the key columns [on] in the two tables.  The keys are
    looked up one after the other, each in both tables; the first key that
    labels no column of one of them raises its KeyError. *)
Fixpoint key_positions (left_cols right_cols : list string) (on : list string)
  : result (list nat * list nat) :=
  match on with
  | [] => Ok ([], [])
  | k :: on' =>
      match index_of k right_cols, index_of k left_cols with
      | Some j, Some i =>
          rest ← key_positions left_cols right_cols on';
          Ok (i :: rest.1, j :: rest.2)
      | _, _ => Raise (KeyError k)
      end
  end.

Definition key_of (idx : list nat) (r : row) : list value := map (cell r) idx.

Definition is_key (idx : list nat) (n : nat) : bool := existsb (Nat.eqb n) idx.

(** [l] without its elements at the positions [idx]; [n] is the position of
    the head of [l]. *)
Fixpoint drop_positions {A} (idx : list nat) (n : nat) (l : list A) : list A :=
  match l with
  | [] => []
  | x :: l' =>
      if is_key idx n then drop_positions idx (S n) l'
      else x :: drop_positions idx (S n) l'
  end.

Definition mem (c : string) (l : list string) : bool := existsb (String.eqb c) l.

(** The labels of one side of a join: a label that is no key and also labels
    a non-key column of the other side gets the side's suffix. *)
Fixpoint suffixed (sfx : string) (idx : list nat) (other : list string)
    (n : nat) (cols : list string) : list string :=
  match cols with
  | [] => []
  | c :: cols' =>
      (if negb (is_key idx n) && mem c other then (c ++ sfx)%string else c)
        :: suffixed sfx idx other (S n) cols'
  end.

(** A row of [width] missing cells that carries the key cells [kv] at the
    positions [idx]. *)
Definition blank_with_key (width : nat) (idx : list nat) (kv : list value) : row :=
  fold_left (fun acc p => <[p.1 := p.2]> acc) (zip idx kv) (replicate width VMissing).

Definition same_key (a b : list value) : bool := bool_decide (a = b).

(** The order in which pandas sorts key cells of mixed kinds: numbers, then
    strings, then missing cells. *)
Definition value_leb (a b : value) : bool :=
  match a, b with
  | VInt x, VInt y => (x <=? y)%Z
  | VInt _, _ => true
  | VStr _, VInt _ => false
  | VStr s, VStr t => String.leb s t
  | VStr _, VMissing => true
  | VMissing, VMissing => true
  | VMissing, _ => false
  end.

(** Keys of several cells are ordered lexicographically. *)
Fixpoint key_leb (a b : list value) : bool :=
  match a, b with
  | [], _ => true
  | _ :: _, [] => false
  | x :: a', y :: b' => if bool_decide (x = y) then key_leb a' b' else value_leb x y
  end.

(** [r] put in front of the first row of [sorted] whose key is not smaller
    than its own. *)
Fixpoint insert_by_key (idx : list nat) (r : row) (sorted : list row) : list row :=
  match sorted with
  | [] => [r]
  | x :: xs =>
      if key_leb (key_of idx r) (key_of idx x) then r :: x :: xs
      else x :: insert_by_key idx r xs
  end.

(** The rows sorted by their key; rows of one key keep their order. *)
Definition sort_by_key (idx : list nat) (rs : list row) : list row :=
  foldr (insert_by_key idx) [] rs.

(** [left.merge(right, on=on, how=how)] with a list of key labels [on].  A
    cross join takes no keys, and an empty list of keys is none.  The result
    has the columns of [left] followed by the non-key columns of [right].
    An inner and a left join follow the order of the rows of [left], a right
    join that of [right]; an outer join has the rows of the left join and
    the rows of [right] that match no row of [left], sorted by key.  Two key
    cells match when they are equal, missing ones included.  The keys are
    resolved before the rows are joined, and a [how] that is none of these
    kinds is refused last. *)
Definition merge (left right : DataFrame) (on : list string) (how : string)
  : result DataFrame :=
  if String.eqb how "cross" then
    Raise (Exn "MergeError"
             "Can not pass on, right_on, left_on or set right_index=True or left_index=True")
  else if bool_decide (on = []) then
    Raise (Exn "IndexError" "list index out of range")
  else
  idx ← key_positions (columns left) (columns right) on;
  let li := idx.1 in
  let ri := idx.2 in
  let right_cols := drop_positions ri 0 (columns right) in
  let left_nonkey := drop_positions li 0 (columns left) in
  let cols :=
    suffixed "_x" li right_cols 0 (columns left)
      ++ drop_positions ri 0 (suffixed "_y" ri left_nonkey 0 (columns right)) in
  let glue (l r : row) : row := l ++ drop_positions ri 0 r in
  let right_matches (l : row) :=
    List.filter (fun r => same_key (key_of li l) (key_of ri r)) (rows right) in
  let left_matches (r : row) :=
    List.filter (fun l => same_key (key_of li l) (key_of ri r)) (rows left) in
  let left_only (l : row) : row := l ++ replicate (length right_cols) VMissing in
  let right_only (r : row) : row :=
    glue (blank_with_key (length (columns left)) li (key_of ri r)) r in
  let inner_rows :=
    flat_map (fun l => map (glue l) (right_matches l)) (rows left) in
  let left_rows :=
    flat_map (fun l =>
      match right_matches l with
      | [] => [left_only l]
      | ms => map (glue l) ms
      end) (rows left) in
  let right_rows :=
    flat_map (fun r =>
      match left_matches r with
      | [] => [right_only r]
      | ms => map (fun l => glue l r) ms
      end) (rows right) in
  let unmatched_right :=
    flat_map (fun r =>
      match left_matches r with
      | [] => [right_only r]
      | _ => []
      end) (rows right) in
  if String.eqb how "inner" then Ok (mkDataFrame cols inner_rows)
  else if String.eqb how "left" then Ok (mkDataFrame cols left_rows)
  else if String.eqb how "right" then Ok (mkDataFrame cols right_rows)
  else if String.eqb how "outer" then
    Ok (mkDataFrame cols (sort_by_key li (left_rows ++ unmatched_right)))
  else Raise (ValueError how).

(** ** The configuration and ETL.run *)

(** One entry of a table's ["transformations"] list. *)
Record TransformationStep := mkStep {
  tr_name : string;
  tr_parameters : dict
}.

(** One entry of [configuration["transformations"]["tables"]]. *)
Record TableSpec := mkTableSpec {
  table_name : string;
  transformations : list TransformationStep
}.

(** One entry of [configuration["transformations"]["join"]]; [on] is the
    list of key labels (a single label is the one-element list). *)
Record JoinSpec := mkJoin {
  source_1 : string;
  source_2 : string;
  on : list string;
  how : string
}.

(** [configuration["transformations"]]. *)
Record Configuration := mkConfiguration {
  tables : list TableSpec;
  join : list JoinSpec
}.

(** What code that [run] evaluates can reach and change while the run goes
    on: the dictionary [source_data_dct], and the destination, here the list
    of the tables handed to [write_data] so far. *)
Record world := mkWorld {
  w_tables : gmap string DataFrame;
  w_written : list DataFrame
}.

(** What a transformation name evaluates to: something that is called with
    a table and the step's parameters, in a world that it may change, and
    that returns a table or raises. *)
Definition callable := DataFrame -> dict -> world -> result DataFrame * world.

(** A function of the module, which changes nothing. *)
Definition module_function (f : DataFrame -> dict -> result DataFrame) : callable :=
  fun df parameters w => (f df parameters, w).

(** What a run leaves behind: the tables handed to
    [destination.write_data], in order, and how the run ended. *)
Record outcome := mkOutcome {
  written : list DataFrame;
  status : result unit
}.

Module ETL.
Section Run.

Variable to_numeric : list value -> list value.
Variable astype : string -> list value -> result (list value).

(** Python's [eval] on the configured name of a step, other than the names
    of the two transformations the module defines.  The string is evaluated
    in the frame of [run]: it sees the configuration (through [self]), the
    entry [tables_t] of the table at hand with its [table_name] and its list
    [transformations], the step [tr], and the world, which it may change
    before it returns or raises.  What stays the same throughout a run (the
    sources, the loop variable [k] of the loading loop, the names the module
    binds) is part of the evaluator.  The model leaves out evaluated code
    that does not return, that changes the configuration while [run] loops
    over it, that rebinds [rename], [set_types] or an attribute of [self],
    or that stores one table object under two names. *)
Variable eval_expr :
  Configuration -> TableSpec -> TransformationStep -> world -> result callable * world.

(** [eval(tr["name"])] inside [run]: [rename] and [set_types] are bound at
    module level and not shadowed by a local of [run]; looking them up
    changes nothing. *)
Definition py_eval (configuration : Configuration) (tables_t : TableSpec)
    (tr : TransformationStep) (w : world) : result callable * world :=
  if String.eqb (tr_name tr) "rename" then (Ok (module_function rename), w)
  else if String.eqb (tr_name tr) "set_types"
  then (Ok (module_function (set_types to_numeric astype)), w)
  else eval_expr configuration tables_t tr w.

(** [source_data_dct[k]] *)
Definition table_getitem (source_data_dct : gmap string DataFrame) (k : string)
  : result DataFrame :=
  match source_data_dct !! k with
  | Some df => Ok df
  | None => Raise (KeyError k)
  end.

(** Line 114: the callee is evaluated first, then its arguments, in the
    world the evaluation left, then the call is made; the assignment stores
    the result under [table_name] in the dictionary as the call left it. *)
Definition apply_step (configuration : Configuration) (tables_t : TableSpec)
    (tr : TransformationStep) (w : world) : result unit * world :=
  match py_eval configuration tables_t tr w with
  | (Raise e, w1) => (Raise e, w1)
  | (Ok f, w1) =>
      match table_getitem (w_tables w1) (table_name tables_t) with
      | Raise e => (Raise e, w1)
      | Ok df =>
          match f df (tr_parameters tr) w1 with
          | (Raise e, w2) => (Raise e, w2)
          | (Ok df', w2) =>
              (Ok tt,
               mkWorld (<[table_name tables_t := df']> (w_tables w2)) (w_written w2))
          end
      end
  end.

(** Lines 113-114, for the steps [trs] still to come of the entry
    [tables_t]. *)
Fixpoint apply_steps (configuration : Configuration) (tables_t : TableSpec)
    (trs : list TransformationStep) (w : world) : result unit * world :=
  match trs with
  | [] => (Ok tt, w)
  | tr :: trs' =>
      match apply_step configuration tables_t tr w with
      | (Raise e, w1) => (Raise e, w1)
      | (Ok _, w1) => apply_steps configuration tables_t trs' w1
      end
  end.

(** Lines 110-114, for the entries [specs] still to come. *)
Fixpoint table_transformations (configuration : Configuration)
    (specs : list TableSpec) (w : world) : result unit * world :=
  match specs with
  | [] => (Ok tt, w)
  | tables_t :: specs' =>
      match apply_steps configuration tables_t (transformations tables_t) w with
      | (Raise e, w1) => (Raise e, w1)
      | (Ok _, w1) => table_transformations configuration specs' w1
      end
  end.

(** Line 117, right-hand side: the table of [source_1] is looked up, then
    the table of [source_2], then they are merged. *)
Definition join_one (source_data_dct : gmap string DataFrame) (join_t : JoinSpec)
  : result DataFrame :=
  l ← table_getitem source_data_dct (source_1 join_t);
  r ← table_getitem source_data_dct (source_2 join_t);
  merge l r (on join_t) (how join_t).

(** Lines 116-117: [merged] is [None] while the local is unassigned. *)
Fixpoint joins (source_data_dct : gmap string DataFrame) (js : list JoinSpec)
    (merged : option DataFrame) : result (option DataFrame) :=
  match js with
  | [] => Ok merged
  | join_t :: js' =>
      m ← join_one source_data_dct join_t;
      joins source_data_dct js' (Some m)
  end.

(** Lines 109-118 of [ETL.run], from the dictionary [source_data_dct] that
    the loading loop (lines 107-108) has filled and a destination that has
    received nothing.  Reading the unassigned local [merged] raises
    UnboundLocalError.  The destination holds what evaluated code has
    written on its own and, when the run reaches line 118, the last join. *)
Definition run (source_data_dct : gmap string DataFrame)
    (configuration : Configuration) : outcome :=
  match table_transformations configuration (tables configuration)
          (mkWorld source_data_dct []) with
  | (Raise e, w) => mkOutcome (w_written w) (Raise e)
  | (Ok _, w) =>
      match joins (w_tables w) (join configuration) None with
      | Raise e => mkOutcome (w_written w) (Raise e)
      | Ok None => mkOutcome (w_written w) (Raise (UnboundLocalError "merged"))
      | Ok (Some merged) => mkOutcome (w_written w ++ [merged]) (Ok tt)
      end
  end.

End Run.
End ETL.

(** ** Sources: CSVFileSource, SourceFactory and the loading loop *)

(** [s.endswith(suffix)] *)
Definition endswith (s suffix : string) : bool :=
  let n := String.length s in
  let m := String.length suffix in
  (m <=? n)%nat && String.eqb (substring (n - m) m s) suffix.

(** [os.path.join(path, file)] on POSIX: an absolute [file] stands alone, an
    empty [path] or one that ends with the separator takes [file] directly,
    and otherwise the separator goes between the two. *)
Definition os_path_join (path file : string) : string :=
  if String.prefix "/" file then file
  else if String.eqb path "" then file
  else if endswith path "/" then (path ++ file)%string
  else (path ++ "/" ++ file)%string.

(** The labels of the concatenation: those of the frames in the order in
    which they first appear. *)
Definition add_label (acc : list string) (c : string) : list string :=
  if mem c acc then acc else acc ++ [c].

Definition union_columns (dfs : list DataFrame) : list string :=
  fold_left (fun acc df => fold_left add_label (columns df) acc) dfs [].

(** The row [r] of a table with labels [own] laid out under the labels
    [cols]: a label that [own] lacks gets a missing cell. *)
Definition realign (own cols : list string) (r : row) : row :=
  map (fun c => column_cell own c r) cols.

(** [pd.concat(dataframes, ignore_index=True)]: the rows of the frames one
    after the other under the union of their labels; ValueError for an
    empty list. *)
Definition concat (dataframes : list DataFrame) : result DataFrame :=
  match dataframes with
  | [] => Raise (ValueError "No objects to concatenate")
  | _ =>
      let cols := union_columns dataframes in
      Ok (mkDataFrame cols
            (flat_map (fun df => map (realign (columns df) cols) (rows df)) dataframes))
  end.

(** The rows of [rs] that equal neither a row of [seen] nor an earlier row
    of [rs]. *)
Fixpoint first_occurrences (seen : list row) (rs : list row) : list row :=
  match rs with
  | [] => []
  | r :: rs' =>
      if bool_decide (r ∈ seen) then first_occurrences seen rs'
      else r :: first_occurrences (r :: seen) rs'
  end.

(** [df.drop_duplicates()]: of equal rows the first one is kept. *)
Definition drop_duplicates (df : DataFrame) : DataFrame :=
  mkDataFrame (columns df) (first_occurrences [] (rows df)).

Module CSVFileSource.
Section Files.

(** [os.listdir]: the names in a directory, or the exception it raises. *)
Variable listdir : string -> result (list string).

(** [pd.read_csv]: the table in the file at a path, or the exception it
    raises. *)
Variable read_csv : string -> result DataFrame.

(** Lines 34-37: the files are read in the order of the listing, and the
    first failing read ends the loop. *)
Fixpoint read_files (path : string) (all_files : list string)
  : result (list DataFrame) :=
  match all_files with
  | [] => Ok []
  | file :: all_files' =>
      df ← read_csv (os_path_join path file);
      dataframes ← read_files path all_files';
      Ok (df :: dataframes)
  end.

(** [_read_all_csv_files], lines 31-38. *)
Definition _read_all_csv_files (path : string) : result DataFrame :=
  names ← listdir path;
  let all_files := List.filter (fun f => endswith f ".csv") names in
  dataframes ← read_files path all_files;
  df ← concat dataframes;
  Ok (drop_duplicates df).

(** [CSVFileSource(path).get_data()]: the constructor reads the files and
    [get_data] returns what it stored. *)
Definition get_data (path : string) : result DataFrame :=
  _read_all_csv_files path.

End Files.
End CSVFileSource.

Module SourceFactory.
Section Files.

Variable listdir : string -> result (list string).
Variable read_csv : string -> result DataFrame.

(** [SourceFactory.create_source(source_type, path=path).get_data()],
    lines 71-75. *)
Definition create_source (source_type : string) (path : string)
  : result DataFrame :=
  if String.eqb source_type "csv"
  then CSVFileSource.get_data listdir read_csv path
  else Raise (ValueError ("Unknown source type: " ++ source_type)%string).

End Files.
End SourceFactory.

Module Loading.
Section Files.

Variable listdir : string -> result (list string).
Variable read_csv : string -> result DataFrame.
Variable to_numeric : list value -> list value.
Variable astype : string -> list value -> result (list value).
Variable eval_expr :
  Configuration -> TableSpec -> TransformationStep -> world -> result callable * world.

(** Lines 107-108: one source per key of [configuration["source"]["data"]],
    in the order of the keys. *)
Fixpoint load_sources (source_type : string) (source : dict) (ks : list string)
    (source_data_dct : gmap string DataFrame) : result (gmap string DataFrame) :=
  match ks with
  | [] => Ok source_data_dct
  | k :: ks' =>
      path ← dict_getitem source k;
      df ← SourceFactory.create_source listdir read_csv source_type path;
      load_sources source_type source ks' (<[k := df]> source_data_dct)
  end.

(** [ETL.run], lines 105-118: the loading loop and then the stages of
    [ETL.run] above. *)
Definition run (source_type : string) (source : dict)
    (configuration : Configuration) : outcome :=
  match load_sources source_type source (keys source) ∅ with
  | Ok source_data_dct =>
      ETL.run to_numeric astype eval_expr source_data_dct configuration
  | Raise e => mkOutcome [] (Raise e)
  end.

End Files.
End Loading.

(** ** Notions used in the statements *)

(** The inverse of a one-to-one renaming: every pair turned around. *)
Definition inverse (m : dict) : dict := map (fun p => (p.2, p.1)) m.

(** The key [k] of [parameters] asks for numeric coercion. *)
Definition is_numeric (parameters : dict) (k : string) : bool :=
  match dict_get parameters k with
  | Some t => String.eqb t "to_numeric"
  | None => false
  end.

(** [pd.to_numeric] leaves a missing cell exactly where the cell it is given
    denotes no number, [parsable] telling which cells denote one. *)
Definition coerces (to_numeric : list value -> list value)
    (parsable : value -> bool) : Prop :=
  ∀ col, Forall2 (fun v n => isna n = negb (parsable v)) col (to_numeric col).

(** [Series.astype] returns a column as long as the one it is given. *)
Definition keeps_length (astype : string -> list value -> result (list value)) : Prop :=
  ∀ t col col', astype t col = Ok col' → length col' = length col.

(** Whether the pass of [set_types] for the key [k] keeps the row [r] of a
    table with labels [cols]: a numeric coercion keeps the rows whose cell in
    column [k] denotes a number, a cast keeps every row. *)
Definition step_keeps (parsable : value -> bool)
    (parameters : dict) (cols : list string) (k : string) (r : row) : bool :=
  if is_numeric parameters k
  then parsable (column_cell cols k r)
  else true.

(** The row [r] of a table with labels [cols] denotes a number in every
    column among [ks] that [parameters] coerces to numeric. *)
Definition row_parsable (parsable : value -> bool)
    (parameters : dict) (cols : list string) (ks : list string) (r : row) : bool :=
  forallb (fun k => step_keeps parsable parameters cols k r) ks.

(** How the pass for the key [k] turns a kept row [r] into [r1]: only the
    cells of the columns labelled [k] are written. *)
Definition row_stepped (cols : list string) (k : string) (r r1 : row) : Prop :=
  length r1 = length r
  ∧ ∀ j, cols !! j ≠ Some k → r1 !! j = r !! j.

(** How a surviving row [r] of the input of [set_types] shows in its output
    as [r']: same width, and the cells of the columns that are no key are
    those of [r]. *)
Definition row_after (cols : list string) (ks : list string) (r r' : row) : Prop :=
  length r' = length r
  ∧ ∀ j c, cols !! j = Some c → c ∉ ks → r' !! j = r !! j.

(** The names that the module binds to a transformation. *)
Definition module_name (name : string) : bool :=
  String.eqb name "rename" || String.eqb name "set_types".

(** The steps [trs], each the name of a transformation of the module,
    applied to one table, each to the result of the one before it, with no
    table set involved. *)
Fixpoint chain (to_numeric : list value -> list value)
    (astype : string -> list value -> result (list value))
    (df : DataFrame) (trs : list TransformationStep) : result DataFrame :=
  match trs with
  | [] => Ok df
  | tr :: trs' =>
      df' ← (if String.eqb (tr_name tr) "rename" then rename df (tr_parameters tr)
             else if String.eqb (tr_name tr) "set_types"
             then set_types to_numeric astype df (tr_parameters tr)
             else Raise (NameError (tr_name tr)));
      chain to_numeric astype df' trs'
  end.


(** ** Concrete instances used in the examples below *)

Definition digit_of (a : Ascii.ascii) : option Z :=
  let n := Z.of_nat (Ascii.nat_of_ascii a) in
  if (48 <=? n)%Z && (n <=? 57)%Z then Some (n - 48)%Z else None.

Fixpoint digits_value (acc : Z) (s : string) : option Z :=
  match s with
  | EmptyString => Some acc
  | String a s' =>
      match digit_of a with
      | Some d => digits_value (10 * acc + d)%Z s'
      | None => None
      end
  end.

(** A numeric parser that knows integers and strings of decimal digits. *)
Definition decimal_numeric_of (v : value) : option value :=
  match v with
  | VInt z => Some (VInt z)
  | VStr EmptyString => None
  | VStr s => VInt <$> digits_value 0 s
  | VMissing => None
  end.

Definition decimal_parsable (v : value) : bool :=
  match decimal_numeric_of v with Some _ => true | None => false end.

(** The coercion of a column with that parser. *)
Definition decimal_to_numeric (col : list value) : list value :=
  map (fun v => default VMissing (decimal_numeric_of v)) col.

(** A cast that knows the dtype [object] (every cell is kept) and
    the dtype [int] (every cell must denote an integer). *)
Fixpoint int_column (col : list value) : result (list value) :=
  match col with
  | [] => Ok []
  | v :: col' =>
      match decimal_numeric_of v with
      | Some n => rest ← int_column col'; Ok (n :: rest)
      | None => Raise (ValueError "invalid literal for int()")
      end
  end.

Definition simple_astype (t : string) (col : list value) : result (list value) :=
  if String.eqb t "object" then Ok col
  else if String.eqb t "int" then int_column col
  else Raise (TypeError t).

(** An evaluation context in which no further name is bound: every other
    string is an unbound identifier. *)
Definition no_other_binding (configuration : Configuration) (tables_t : TableSpec)
    (tr : TransformationStep) (w : world) : result callable * world :=
  (Raise (NameError (tr_name tr)), w).

(** An evaluation context in which one more string evaluates: a lambda
    expression that returns its table. *)
Definition lambda_binding (configuration : Configuration) (tables_t : TableSpec)
    (tr : TransformationStep) (w : world) : result callable * world :=
  if String.eqb (tr_name tr) "lambda df, parameters: df"
  then (Ok (fun df _ w' => (Ok df, w')), w)
  else (Raise (NameError (tr_name tr)), w).

(** An evaluation context for an expression that hands the table [A] to
    the destination and then reads the unbound name [nope]. *)
Definition writing_binding (configuration : Configuration) (tables_t : TableSpec)
    (tr : TransformationStep) (w : world) : result callable * world :=
  if String.eqb (tr_name tr)
       "self.destination.write_data(source_data_dct['A']) or nope"
  then
    match w_tables w !! "A" with
    | Some a => (Raise (NameError "nope"), mkWorld (w_tables w) (w_written w ++ [a]))
    | None => (Raise (KeyError "A"), w)
    end
  else (Raise (NameError (tr_name tr)), w).

Definition run0 := ETL.run decimal_to_numeric simple_astype no_other_binding.

(** The tables of the join example of the specification. *)
Definition table_A : DataFrame :=
  mkDataFrame ["id"; "v"] [[VInt 1; VStr "a"]; [VInt 2; VStr "b"]].
Definition table_B : DataFrame :=
  mkDataFrame ["id"; "w"] [[VInt 2; VStr "x"]; [VInt 3; VStr "y"]].
Definition tables_AB : gmap string DataFrame :=
  <["A" := table_A]> (<["B" := table_B]> ∅).

Definition join_AB (how : string) : Configuration :=
  mkConfiguration [] [mkJoin "A" "B" ["id"] how].

(** A table with a column of numbers written as text, some of them not. *)
Definition table_mixed : DataFrame :=
  mkDataFrame ["name"; "qty"; "price"]
    [[VStr "bolt"; VStr "12"; VStr "3"];
     [VStr "nut"; VStr "many"; VStr "4"];
     [VStr "gear"; VStr "7"; VStr "n/a"];
     [VStr "cog"; VStr "5"; VInt 9]].

Definition join_AB_inner : JoinSpec := mkJoin "A" "B" ["id"] "inner".
Definition join_AB_left : JoinSpec := mkJoin "A" "B" ["id"] "left".

Definition inner_AB : DataFrame :=
  mkDataFrame ["id"; "v"; "w"] [[VInt 2; VStr "b"; VStr "x"]].
Definition left_AB : DataFrame :=
  mkDataFrame ["id"; "v"; "w"]
    [[VInt 1; VStr "a"; VMissing]; [VInt 2; VStr "b"; VStr "x"]].

Definition rename_v : TransformationStep := mkStep "rename" [("v", "val")].
Definition rename_w : TransformationStep := mkStep "rename" [("w", "weight")].
Definition step_nope : TransformationStep := mkStep "nope" [].
Definition step_write_nope : TransformationStep :=
  mkStep "self.destination.write_data(source_data_dct['A']) or nope" [].

Definition table_A_renamed : DataFrame := mkDataFrame ["id"; "val"] (rows table_A).
Definition table_B_renamed : DataFrame := mkDataFrame ["id"; "weight"] (rows table_B).

(** The second step of table [A] has a name that nothing binds. *)
Definition config_unknown_name : Configuration :=
  mkConfiguration [mkTableSpec "A" [rename_v; step_nope]] [join_AB_inner].

(** The step of table [A] writes to the destination before it fails. *)
Definition config_write_then_fail : Configuration :=
  mkConfiguration [mkTableSpec "A" [step_write_nope]] [join_AB_inner].

Definition config_lambda : Configuration :=
  mkConfiguration
    [mkTableSpec "A" [mkStep "lambda df, parameters: df" []]] [join_AB_inner].

Definition config_two_joins : Configuration :=
  mkConfiguration [] [join_AB_left; join_AB_inner].

Definition config_no_join : Configuration :=
  mkConfiguration [mkTableSpec "A" [rename_v]] [].



Definition config_missing_step_table : Configuration :=
  mkConfiguration [mkTableSpec "A" [rename_v]; mkTableSpec "Z" [rename_v]]
    [join_AB_inner].



Definition types_mixed : dict :=
  [("qty", "to_numeric"); ("name", "object"); ("price", "to_numeric")].

Definition table_mixed_typed : DataFrame :=
  mkDataFrame ["name"; "qty"; "price"]
    [[VStr "bolt"; VInt 12; VInt 3]; [VStr "cog"; VInt 5; VInt 9]].

(** Only [qty] is coerced: [name] and [price] are no keys. *)
Definition types_qty : dict := [("qty", "to_numeric")].

Definition table_mixed_qty : DataFrame :=
  mkDataFrame ["name"; "qty"; "price"]
    [[VStr "bolt"; VInt 12; VStr "3"];
     [VStr "gear"; VInt 7; VStr "n/a"];
     [VStr "cog"; VInt 5; VInt 9]].


Definition types_two_numeric : dict :=
  [("qty", "to_numeric"); ("weight", "to_numeric")].

(** A directory [data] with two CSV files of one header and a text file,
    and a directory [docs] without a CSV file. *)
Definition table_A2 : DataFrame :=
  mkDataFrame ["id"; "v"] [[VInt 2; VStr "b"]; [VInt 3; VStr "c"]].

Definition table_A_stacked : DataFrame :=
  mkDataFrame ["id"; "v"]
    [[VInt 1; VStr "a"]; [VInt 2; VStr "b"]; [VInt 3; VStr "c"]].

Definition fs_listdir (path : string) : result (list string) :=
  if String.eqb path "data" then Ok ["a.csv"; "notes.txt"; "b.csv"]
  else if String.eqb path "docs" then Ok ["readme.txt"]
  else Raise (Exn "FileNotFoundError" path).

Definition fs_read_csv (path : string) : result DataFrame :=
  if String.eqb path "data/a.csv" then Ok table_A
  else if String.eqb path "data/b.csv" then Ok table_A2
  else Raise (Exn "FileNotFoundError" path).

(** The same files, read by a reader that refuses every path that does not
    end in [.csv]. *)
Definition fs_read_csv_only (path : string) : result DataFrame :=
  if endswith path ".csv" then fs_read_csv path
  else Raise (Exn "ParserError" path).

(** * Properties *)

(** ** Results *)

Lemma bind_Ok_inv {A B} (m : result A) (f : A -> result B) (b : B) :
  m ≫= f = Ok b → ∃ a, m = Ok a ∧ f a = Ok b.
Proof. destruct m as [a|e]; simpl; [eauto | discriminate]. Qed.

(** ** Labels, cells and dictionaries *)

Lemma index_of_Some k cols i :
  index_of k cols = Some i → cols !! i = Some k.
Proof.
  revert i. induction cols as [|c cols IH]; intros i; simpl; [done|].
  destruct (String.eqb_spec c k) as [->|Hne].
  - by intros [= <-].
  - destruct (index_of k cols) as [j|]; simpl; [|done].
    intros [= <-]. simpl. by apply IH.
Qed.



Lemma index_of_apart k k' cols i i' :
  index_of k cols = Some i → index_of k' cols = Some i' → k ≠ k' → i ≠ i'.
Proof.
  intros H1%index_of_Some H2%index_of_Some Hne ->. congruence.
Qed.

Lemma cell_insert_eq (r : row) i v :
  i < length r → cell (<[i:=v]> r) i = v.
Proof. intros Hi. unfold cell. by rewrite list_lookup_insert_eq. Qed.

Lemma cell_insert_ne (r : row) i j v :
  i ≠ j → cell (<[i:=v]> r) j = cell r j.
Proof. intros Hne. unfold cell. by rewrite list_lookup_insert_ne. Qed.

Lemma dict_get_None d k : k ∉ keys d → dict_get d k = None.
Proof.
  induction d as [|[k' v] d IH]; simpl; [done|].
  intros [Hne Hnin]%not_elem_of_cons.
  destruct (String.eqb_spec k' k); [congruence | by apply IH].
Qed.

Lemma dict_get_Some_value d k v : dict_get d k = Some v → v ∈ values d.
Proof.
  induction d as [|[k' v'] d IH]; simpl; [done|].
  destruct (String.eqb_spec k' k).
  - intros [= ->]. apply elem_of_cons. by left.
  - intros H. apply elem_of_cons. right. by apply IH.
Qed.

Lemma dict_get_elem d k : k ∈ keys d → ∃ v, dict_get d k = Some v.
Proof.
  induction d as [|[k' v'] d IH]; simpl.
  - by intros ?%elem_of_nil.
  - intros [->|Hin]%elem_of_cons.
    + rewrite String.eqb_refl. eauto.
    + destruct (String.eqb k' k); eauto.
Qed.

Lemma keys_inverse m : keys (inverse m) = values m.
Proof. unfold keys, inverse, values. rewrite map_map. by apply map_ext. Qed.

Lemma dict_get_inverse m k v :
  NoDup (values m) → dict_get m k = Some v → dict_get (inverse m) v = Some k.
Proof.
  induction m as [|[k' v'] m IH]; simpl; [done|].
  intros [Hnin Hnd]%NoDup_cons.
  destruct (String.eqb_spec k' k) as [->|Hne].
  - intros [= ->]. by rewrite String.eqb_refl.
  - intros Hget. destruct (String.eqb_spec v' v) as [->|Hv].
    + exfalso. apply Hnin. by eapply dict_get_Some_value.
    + by apply IH.
Qed.

(** ** rename *)

Lemma rename_label_fixed (m : dict) (cols : list string) :
  (∀ k, k ∈ keys m → k ∉ cols) →
  map (fun c => default c (dict_get m c)) cols = cols.
Proof.
  intros Habs. induction cols as [|c cols IH]; simpl; [done|].
  f_equal.
  - rewrite dict_get_None; [done|].
    intros Hin. apply (Habs c Hin). apply elem_of_cons. by left.
  - apply IH. intros k Hk Hin. apply (Habs k Hk). apply elem_of_cons. by right.
Qed.

(** C4, as amended.  [rename] never raises: a label of the table that is a
    key of the mapping is replaced by the mapped name, every other label is
    kept, the rows are untouched, and keys that label no column are ignored
    (a mapping none of whose keys labels a column gives the table back). *)
Theorem rename_ignores_absent_names (df : DataFrame) (m : dict) :
  ∃ out,
    rename df m = Ok out
    ∧ rows out = rows df
    ∧ length (columns out) = length (columns df)
    ∧ (∀ i c c', columns df !! i = Some c → dict_get m c = Some c' →
         columns out !! i = Some c')
    ∧ (∀ i c, columns df !! i = Some c → c ∉ keys m →
         columns out !! i = Some c)
    ∧ ((∀ k, k ∈ keys m → k ∉ columns df) → out = df).
Proof.
  eexists. split; [reflexivity|]. simpl.
  split; [done|]. split; [by rewrite length_map|].
  split; [|split].
  - intros i c c' Hi Hget. rewrite list_lookup_fmap, Hi. simpl. by rewrite Hget.
  - intros i c Hi Hnin. rewrite list_lookup_fmap, Hi. simpl.
    by rewrite (dict_get_None _ _ Hnin).
  - intros Habs. destruct df as [cols rs]. simpl in *. f_equal.
    by apply rename_label_fixed.
Qed.

(** C4, refuted as stated: the mapping names the column [zz], which
    [table_A] does not have, and [rename] returns [table_A] instead of
    raising. *)
Lemma rename_absent_name_no_error :
  mem "zz" (columns table_A) = false
  ∧ rename table_A [("zz", "q")] = Ok table_A.
Proof. split; reflexivity. Qed.

(** C8.  For a one-to-one mapping [m] none of whose new names labels a
    column of the table, renaming with [m] and then with the inverse of [m]
    gives the table back, labels and rows. *)
Theorem rename_round_trip (df : DataFrame) (m : dict) :
  NoDup (values m) →
  Forall (fun c => c ∉ values m) (columns df) →
  rename df m ≫= (fun d => rename d (inverse m)) = Ok df.
Proof.
  intros Hnd Hdisj. destruct df as [cols rs]. simpl in *.
  unfold rename; simpl. do 2 f_equal.
  rewrite map_map.
  induction Hdisj as [|c cols Hc _ IH]; simpl; [done|].
  f_equal; [|exact IH].
  destruct (dict_get m c) as [v|] eqn:E; simpl.
  - by rewrite (dict_get_inverse _ _ _ Hnd E).
  - rewrite dict_get_None; [done|]. by rewrite keys_inverse.
Qed.

(** A mapping that sends two labels to one name has no inverse: turned
    around it holds one of the two pairs, and the round trip loses a label. *)
Example rename_many_to_one :
  rename table_A [("id", "x"); ("v", "x")] ≫= (fun d => rename d [("x", "v")])
  = Ok (mkDataFrame ["v"; "v"] (rows table_A)).
Proof. reflexivity. Qed.

(** The round trip on [table_A] with a mapping of both its labels. *)
Lemma rename_round_trip_witness :
  rename table_A [("id", "key"); ("v", "val")]
    ≫= (fun d => rename d (inverse [("id", "key"); ("v", "val")])) = Ok table_A.
Proof.
  apply (rename_round_trip table_A [("id", "key"); ("v", "val")]).
  - compute_done.
  - compute_done.
Defined.

(** ** rename: labels *)

Lemma dict_get_one_to_one m c c' v :
  NoDup (values m) → dict_get m c = Some v → dict_get m c' = Some v → c = c'.
Proof.
  intros Hnd H1 H2.
  pose proof (dict_get_inverse _ _ _ Hnd H1) as E1.
  pose proof (dict_get_inverse _ _ _ Hnd H2) as E2. congruence.
Qed.

(** X5.  [rename] keeps the labels of a table distinct when the mapping is
    one-to-one and none of its new names is a label that stays. *)
Theorem rename_keeps_labels_distinct (df out : DataFrame) (m : dict) :
  NoDup (columns df) →
  NoDup (values m) →
  Forall (fun c => c ∈ keys m ∨ c ∉ values m) (columns df) →
  rename df m = Ok out →
  NoDup (columns out).
Proof.
  intros Hcols Hvals Hfresh [= <-]. simpl. rewrite Forall_forall in Hfresh.
  apply (NoDup_fmap_2_strong (fun c => default c (dict_get m c))); [|done].
  intros c c' Hc Hc'.
  destruct (dict_get m c) as [v|] eqn:E; destruct (dict_get m c') as [v'|] eqn:E';
    simpl; intros Heq.
  - subst v'. by eapply dict_get_one_to_one.
  - subst c'. exfalso. destruct (Hfresh v Hc') as [Hin|Hnin].
    + apply dict_get_elem in Hin as [? ?]. congruence.
    + apply Hnin. by eapply dict_get_Some_value.
  - subst c. exfalso. destruct (Hfresh v' Hc) as [Hin|Hnin].
    + apply dict_get_elem in Hin as [? ?]. congruence.
    + apply Hnin. by eapply dict_get_Some_value.
  - done.
Qed.

Lemma rename_keeps_labels_distinct_witness :
  NoDup (columns (mkDataFrame ["key"; "v"] (rows table_A))).
Proof.
  apply (rename_keeps_labels_distinct table_A _ [("id", "key"); ("w", "weight")]).
  - compute_done.
  - compute_done.
  - compute_done.
  - reflexivity.
Defined.

(** X6.  When no new name of the mapping is one of its old names, renaming
    twice with the mapping is renaming once. *)
Theorem rename_twice (df : DataFrame) (m : dict) :
  Forall (fun v => v ∉ keys m) (values m) →
  rename df m ≫= (fun d => rename d m) = rename df m.
Proof.
  intros Hfresh. unfold rename. simpl. do 2 f_equal.
  rewrite map_map. apply map_ext. intros c.
  destruct (dict_get m c) as [v|] eqn:E; simpl; [|by rewrite E].
  rewrite dict_get_None; [done|].
  rewrite Forall_forall in Hfresh. apply Hfresh. by eapply dict_get_Some_value.
Qed.

Lemma rename_twice_witness :
  rename table_A [("id", "key"); ("v", "val")]
    ≫= (fun d => rename d [("id", "key"); ("v", "val")])
  = rename table_A [("id", "key"); ("v", "val")].
Proof.
  apply (rename_twice table_A [("id", "key"); ("v", "val")]). compute_done.
Defined.


(** ** set_types *)

Lemma positions_from_spec k n cols j :
  j ∈ positions_from k n cols ↔ ∃ i, j = n + i ∧ cols !! i = Some k.
Proof.
  revert n. induction cols as [|c cols IH]; intros n; simpl.
  - split; [by intros ?%elem_of_nil | by intros (i & _ & ?)].
  - destruct (String.eqb_spec c k) as [->|Hne].
    + rewrite elem_of_cons, IH. split.
      * intros [->|(i & -> & Hi)]; [exists 0 | exists (S i)]; split; auto with lia.
      * intros ([|i] & -> & Hi); [left; lia | right; exists i; split; [lia | done]].
    + rewrite IH. split.
      * intros (i & -> & Hi). exists (S i). split; [lia | done].
      * intros ([|i] & -> & Hi); simpl in Hi; [congruence|].
        exists i. split; [lia | done].
Qed.

(** The positions of a label are the positions that hold it. *)
Lemma positions_spec k cols j :
  j ∈ positions k cols ↔ cols !! j = Some k.
Proof.
  unfold positions. rewrite positions_from_spec. split.
  - by intros (i & -> & Hi).
  - intros Hj. by exists j.
Qed.

Lemma positions_from_nil k n cols : k ∉ cols → positions_from k n cols = [].
Proof.
  intros Hnin. destruct (positions_from k n cols) as [|j ps] eqn:E; [done|].
  assert (j ∈ positions_from k n cols) as Hj by (rewrite E; apply elem_of_cons; by left).
  apply positions_from_spec in Hj as (i & _ & Hi).
  exfalso. apply Hnin. by eapply list_elem_of_lookup_2.
Qed.

Lemma positions_from_head k n cols i ps :
  positions_from k n cols = i :: ps →
  ∃ i', index_of k cols = Some i' ∧ i = n + i'.
Proof.
  revert n. induction cols as [|c cols IH]; intros n; simpl; [done|].
  destruct (String.eqb_spec c k) as [->|Hne].
  - intros [= <- _]. exists 0. split; [done | lia].
  - intros (i' & -> & ->)%IH. exists (S i'). split; [done | lia].
Qed.

(** The first position of a label is where [index_of] finds it. *)
Lemma positions_head k cols i ps :
  positions k cols = i :: ps → index_of k cols = Some i.
Proof. by intros (i' & ? & ->)%positions_from_head. Qed.



Lemma column_cell_stepped cols k k' (r r1 : row) :
  row_stepped cols k r r1 → k' ≠ k →
  column_cell cols k' r1 = column_cell cols k' r.
Proof.
  intros [_ Hframe] Hne. unfold column_cell.
  destruct (index_of k' cols) as [i|] eqn:E; [|done].
  unfold cell. rewrite Hframe; [done|].
  apply index_of_Some in E. congruence.
Qed.

Lemma filter_all_true {A} (p : A -> bool) (l : list A) :
  (∀ x, p x = true) → List.filter p l = l.
Proof.
  intros Hp. induction l as [|x l IH]; simpl; [done|].
  by rewrite Hp, IH.
Qed.

Lemma filter_length_bound {A} (p : A -> bool) (l : list A) :
  (length (List.filter p l) ≤ length l)%nat.
Proof.
  induction l as [|x l IH]; simpl; [done|].
  destruct (p x); simpl; lia.
Qed.

Lemma filter_sublist {A} (p : A -> bool) (l : list A) :
  List.filter p l `sublist_of` l.
Proof.
  induction l as [|x l IH]; simpl; [constructor|].
  destruct (p x); by constructor.
Qed.

(** Filtering both sides of a row-by-row correspondence by a test that the
    correspondence preserves. *)
Lemma Forall2_filter_both {A B} (R : A -> B -> Prop)
    (p q : A -> bool) (q' : B -> bool) (l : list A) (l1 : list B) :
  (∀ x y, R x y → q' y = q x) →
  Forall2 R (List.filter p l) l1 →
  Forall2 R (List.filter (fun x => p x && q x) l) (List.filter q' l1).
Proof.
  intros Hq. revert l1. induction l as [|x l IH]; intros l1; simpl.
  - intros ->%Forall2_nil_inv_l. constructor.
  - destruct (p x); simpl; [|apply IH].
    intros (y & l1' & Hxy & Hrest & ->)%Forall2_cons_inv_l. simpl.
    rewrite (Hq _ _ Hxy). destruct (q x); [constructor|]; auto.
Qed.

(** Writing one column: every row is kept, changed at that position only,
    as far as the column reaches. *)
Lemma zip_insert_shape (n i : nat) (rs : list row) (col : list value) :
  Forall (fun r => length r = n) rs →
  Forall (fun r => length r = n) (zip_with (fun r v => <[i:=v]> r) rs col)
  ∧ (length (zip_with (fun r v => <[i:=v]> r) rs col) ≤ length rs)%nat.
Proof.
  intros Hrs. revert col. induction Hrs as [|r rs Hr _ IH]; intros [|v col]; simpl;
    try (split; [constructor | lia]).
  destruct (IH col) as [Hwf Hle]. split; [|lia].
  constructor; [by rewrite length_insert | done].
Qed.

Lemma set_columns_shape (n : nat) (ps : list nat) (rs : list row)
    (cols : list (list value)) :
  Forall (fun r => length r = n) rs →
  Forall (fun r => length r = n) (set_columns rs ps cols)
  ∧ (length (set_columns rs ps cols) ≤ length rs)%nat.
Proof.
  revert rs cols. induction ps as [|i ps IH]; intros rs cols Hrs; simpl; [by split|].
  destruct cols as [|col cols]; [by split|].
  destruct (zip_insert_shape n i rs col Hrs) as [Hwf Hle].
  destruct (IH _ cols Hwf) as [Hwf' Hle']. split; [done | lia].
Qed.

Lemma zip_insert_rows (i : nat) (rs : list row) (col : list value) :
  length col = length rs →
  Forall2 (fun r r1 => length r1 = length r ∧ ∀ j, j ≠ i → r1 !! j = r !! j)
    rs (zip_with (fun r v => <[i:=v]> r) rs col).
Proof.
  revert col. induction rs as [|r rs IH]; intros [|v col] Hlen; simpl in *;
    try discriminate; constructor.
  - split; [by rewrite length_insert|].
    intros j Hj. by apply list_lookup_insert_ne.
  - apply IH. lia.
Qed.

(** Writing columns of full length at the positions [ps]: every row is
    kept, changed at those positions only. *)
Lemma set_columns_rows (ps : list nat) (rs : list row) (cols : list (list value)) :
  Forall (fun col => length col = length rs) cols →
  Forall2 (fun r r1 => length r1 = length r ∧ ∀ j, j ∉ ps → r1 !! j = r !! j)
    rs (set_columns rs ps cols).
Proof.
  revert rs cols. induction ps as [|i ps IH]; intros rs cols Hcols; simpl.
  - apply Forall_Forall2_diag, Forall_forall. by intros r _.
  - destruct cols as [|col cols].
    { apply Forall_Forall2_diag, Forall_forall. by intros r _. }
    apply Forall_cons in Hcols as [Hcol Hcols].
    pose proof (zip_insert_rows i rs col Hcol) as H1.
    pose proof (Forall2_length _ _ _ H1) as Hlen.
    eapply Forall2_trans; [|exact H1|apply IH].
    + intros r r1 r2 [Hl1 Hf1] [Hl2 Hf2]. split; [congruence|].
      intros j [Hji Hj]%not_elem_of_cons. by rewrite Hf2, Hf1.
    + eapply Forall_impl; [exact Hcols|]. simpl. intros c Hc. congruence.
Qed.

Section SetTypesProperties.

Context (to_numeric : list value -> list value).
Context (astype : string -> list value -> result (list value)).

#[local] Abbreviation step := (set_types_step to_numeric astype).
#[local] Abbreviation loop := (set_types_loop to_numeric astype).

(** The keys are processed one after the other, each pass starting from the
    table the pass before it returned. *)
Lemma set_types_loop_app parameters df ks1 ks2 :
  loop parameters df (ks1 ++ ks2)
  = loop parameters df ks1 ≫= (fun d => loop parameters d ks2).
Proof.
  revert df. induction ks1 as [|k ks1 IH]; intros df; simpl; [done|].
  destruct (step parameters df k) as [d|e]; simpl; [apply IH | done].
Qed.

Lemma astype_columns_length t cols cols' :
  astype_columns astype t cols = Ok cols' → length cols' = length cols.
Proof.
  revert cols'. induction cols as [|col cols IH]; intros cols'; simpl.
  - by intros [= <-].
  - intros (c & _ & (rest & Hrest & [= <-])%bind_Ok_inv)%bind_Ok_inv.
    simpl. f_equal. by apply IH.
Qed.

Lemma astype_columns_lengths t cols cols' n :
  keeps_length astype →
  Forall (fun col => length col = n) cols →
  astype_columns astype t cols = Ok cols' →
  Forall (fun col => length col = n) cols'.
Proof.
  intros Hlen Hcols. revert cols'.
  induction Hcols as [|col cols Hcol _ IH]; intros cols'; simpl.
  - intros [= <-]. constructor.
  - intros (c & Hc & (rest & Hrest & [= <-])%bind_Ok_inv)%bind_Ok_inv.
    constructor; [|by apply IH]. apply Hlen in Hc. congruence.
Qed.

(** The pass for a numerically coerced key whose label one column has. *)
Lemma set_types_step_numeric parameters df k i :
  dict_get parameters k = Some "to_numeric" →
  positions k (columns df) = [i] →
  step parameters df k
  = Ok (mkDataFrame (columns df)
          (List.filter (fun r => notna (cell r i))
             (zip_with (fun r v => <[i:=v]> r) (rows df)
                (to_numeric (column_at df i))))).
Proof.
  intros Hget Hpos.
  unfold set_types_step, dict_getitem, getitem, pd_to_numeric, setitem, dropna.
  rewrite Hget. simpl. rewrite Hpos. simpl. rewrite Hpos. simpl.
  do 2 f_equal. apply filter_ext. intros r. apply andb_true_r.
Qed.

(** The pass for a numerically coerced key whose label several columns
    have. *)
Lemma set_types_step_numeric_frame parameters df k i j ps :
  dict_get parameters k = Some "to_numeric" →
  positions k (columns df) = i :: j :: ps →
  step parameters df k
  = Raise (TypeError "arg must be a list, tuple, 1-d array, or Series").
Proof.
  intros Hget Hpos.
  unfold set_types_step, dict_getitem, getitem.
  rewrite Hget. simpl. by rewrite Hpos.
Qed.

(** The pass for any other key. *)
Lemma set_types_step_cast parameters df k t i ps :
  dict_get parameters k = Some t →
  t ≠ "to_numeric" →
  positions k (columns df) = i :: ps →
  step parameters df k
  = astype_columns astype t (map (column_at df) (i :: ps))
      ≫= (fun cols' =>
            Ok (mkDataFrame (columns df) (set_columns (rows df) (i :: ps) cols'))).
Proof.
  intros Hget Hne Hpos.
  unfold set_types_step, dict_getitem, getitem.
  rewrite Hget. simpl.
  destruct (String.eqb_spec t "to_numeric") as [|_]; [done|].
  rewrite Hpos. destruct ps as [|j ps]; simpl.
  - destruct (astype t (column_at df i)) as [col'|e]; simpl; [|done].
    unfold setitem. by rewrite Hpos.
  - destruct (astype t (column_at df i)) as [ci|e]; simpl; [|done].
    destruct (astype t (column_at df j)) as [cj|e]; simpl; [|done].
    destruct (astype_columns astype t (map (column_at df) ps)) as [rest|e] eqn:E;
      simpl; [|done].
    unfold setitem. rewrite Hpos. simpl.
    apply astype_columns_length in E. rewrite length_map in E.
    by rewrite E, Nat.eqb_refl.
Qed.

Lemma is_numeric_true parameters k :
  is_numeric parameters k = true → dict_get parameters k = Some "to_numeric".
Proof.
  unfold is_numeric. destruct (dict_get parameters k) as [t|]; [|done].
  by intros ->%String.eqb_eq.
Qed.

Lemma is_numeric_false parameters k t :
  dict_get parameters k = Some t → is_numeric parameters k = false →
  t ≠ "to_numeric".
Proof.
  unfold is_numeric. intros ->. by intros ?%String.eqb_neq.
Qed.

(** What a pass that returns has done. *)
Lemma set_types_step_Ok parameters df k df1 :
  step parameters df k = Ok df1 →
  columns df1 = columns df
  ∧ ∃ i ps, positions k (columns df) = i :: ps
    ∧ ((is_numeric parameters k = true ∧ ps = []
        ∧ rows df1
          = List.filter (fun r => notna (cell r i))
              (zip_with (fun r v => <[i:=v]> r) (rows df)
                 (to_numeric (column_at df i))))
       ∨ (is_numeric parameters k = false
          ∧ ∃ t cols', dict_get parameters k = Some t
              ∧ astype_columns astype t (map (column_at df) (i :: ps)) = Ok cols'
              ∧ rows df1 = set_columns (rows df) (i :: ps) cols')).
Proof.
  intros Hstep.
  destruct (dict_get parameters k) as [t|] eqn:Hget;
    [|by unfold set_types_step, dict_getitem in Hstep; rewrite Hget in Hstep].
  destruct (positions k (columns df)) as [|i ps] eqn:Hpos.
  { unfold set_types_step, dict_getitem, getitem in Hstep.
    rewrite Hget in Hstep. simpl in Hstep. rewrite Hpos in Hstep.
    by destruct (String.eqb t "to_numeric"). }
  destruct (is_numeric parameters k) eqn:Hnum.
  - pose proof (is_numeric_true _ _ Hnum) as Hget'.
    destruct ps as [|j ps].
    + rewrite (set_types_step_numeric _ _ _ _ Hget' Hpos) in Hstep.
      injection Hstep as <-. simpl. split; [done|].
      exists i, []. split; [done|]. left. by repeat split.
    + by rewrite (set_types_step_numeric_frame _ _ _ _ _ _ Hget' Hpos) in Hstep.
  - pose proof (is_numeric_false _ _ _ Hget Hnum) as Hne.
    rewrite (set_types_step_cast _ _ _ _ _ _ Hget Hne Hpos) in Hstep.
    apply bind_Ok_inv in Hstep as (cols' & Hcast & [= <-]). simpl.
    split; [done|]. exists i, ps. split; [done|]. right.
    split; [done|]. by exists t, cols'.
Qed.

(** A pass that returns has found its key among the labels, and returns a
    table with the same labels. *)
Lemma set_types_step_columns parameters df k df1 :
  step parameters df k = Ok df1 →
  columns df1 = columns df ∧ k ∈ columns df.
Proof.
  intros (Hcols & i & ps & Hpos & _)%set_types_step_Ok. split; [done|].
  assert (i ∈ positions k (columns df)) as Hi
    by (rewrite Hpos; apply elem_of_cons; by left).
  apply positions_spec in Hi. by eapply list_elem_of_lookup_2.
Qed.

Lemma set_types_loop_columns parameters ks df out :
  loop parameters df ks = Ok out →
  columns out = columns df ∧ Forall (fun k => k ∈ columns df) ks.
Proof.
  revert df. induction ks as [|k ks IH]; intros df; simpl.
  - intros [= <-]. by split.
  - intros (df1 & Hstep & Hloop)%bind_Ok_inv.
    destruct (set_types_step_columns _ _ _ _ Hstep) as [Hcols Hk].
    destruct (IH _ Hloop) as [Hcols' Hks]. rewrite Hcols in Hcols', Hks.
    split; [done|]. by constructor.
Qed.

(** A pass keeps the table well shaped and adds no row. *)
Lemma set_types_step_shape parameters df k df1 :
  table_wf df →
  step parameters df k = Ok df1 →
  table_wf df1 ∧ (length (rows df1) ≤ length (rows df))%nat.
Proof.
  intros Hwf (Hcols & i & ps & _ & Hrows)%set_types_step_Ok.
  unfold table_wf in *. rewrite Hcols.
  destruct Hrows as [(_ & _ & ->)|(_ & t & cols' & _ & _ & ->)].
  - destruct (zip_insert_shape _ i (rows df) (to_numeric (column_at df i)) Hwf)
      as [Hwf' Hle].
    split.
    + apply Forall_forall. intros r Hr%list_elem_of_In.
      apply filter_In in Hr as [Hr%list_elem_of_In _].
      rewrite Forall_forall in Hwf'. by apply Hwf'.
    + etransitivity; [apply filter_length_bound | exact Hle].
  - by apply set_columns_shape.
Qed.

(** The rows a numeric pass keeps, when [pd.to_numeric] leaves a missing
    cell exactly where a cell denotes no number. *)
Lemma numeric_pass_rows (parsable : value -> bool) cols k i
    (rs : list row) (tn : list value) :
  Forall (fun r => length r = length cols) rs →
  cols !! i = Some k →
  Forall2 (fun v n => isna n = negb (parsable v)) (map (fun r => cell r i) rs) tn →
  Forall2 (row_stepped cols k)
    (List.filter (fun r => parsable (cell r i)) rs)
    (List.filter (fun r => notna (cell r i))
       (zip_with (fun r v => <[i:=v]> r) rs tn)).
Proof.
  intros Hwf Hi. revert tn.
  induction Hwf as [|r rs Hr _ IH]; intros tn; simpl.
  - intros ->%Forall2_nil_inv_l. constructor.
  - intros (n & tn' & Hn & Hrest & ->)%Forall2_cons_inv_l. simpl.
    assert (i < length r)%nat as Hlt by (rewrite Hr; by eapply lookup_lt_Some).
    rewrite cell_insert_eq by done.
    unfold notna. rewrite Hn, negb_involutive.
    destruct (parsable (cell r i)); [|by apply IH].
    constructor; [|by apply IH].
    split; [by rewrite length_insert|].
    intros j Hj. apply list_lookup_insert_ne. congruence.
Qed.

(** A successful pass, row by row. *)
Lemma set_types_step_rows (parsable : value -> bool) parameters df k df1 :
  table_wf df →
  keeps_length astype →
  (is_numeric parameters k = true → coerces to_numeric parsable) →
  step parameters df k = Ok df1 →
  columns df1 = columns df
  ∧ Forall2 (row_stepped (columns df) k)
      (List.filter (step_keeps parsable parameters (columns df) k) (rows df))
      (rows df1).
Proof.
  intros Hwf Hlen Hco (Hcols & i & ps & Hpos & Hrows)%set_types_step_Ok.
  split; [done|].
  assert (columns df !! i = Some k) as Hi.
  { apply positions_spec. rewrite Hpos. apply elem_of_cons. by left. }
  destruct Hrows as [(Hnum & -> & ->)|(Hnum & t & cols' & _ & Hcast & ->)].
  - erewrite filter_ext; cycle 1.
    { intros r. unfold step_keeps, column_cell.
      rewrite Hnum, (positions_head _ _ _ _ Hpos). reflexivity. }
    apply numeric_pass_rows; [done | done | apply (Hco Hnum)].
  - rewrite filter_all_true by (intros r; unfold step_keeps; by rewrite Hnum).
    eapply Forall2_impl.
    + apply set_columns_rows.
      eapply astype_columns_lengths; [done| |exact Hcast].
      apply Forall_fmap, Forall_forall. intros j _. simpl.
      unfold column_at. by rewrite length_map.
    + intros r r1 [Hl Hframe]. split; [done|].
      intros j Hj. apply Hframe. rewrite <- Hpos. by rewrite positions_spec.
Qed.

(** A pass for the key [k] does not change what the later keys read. *)
Lemma row_parsable_stepped (parsable : value -> bool) parameters cols k ks
    (r r1 : row) :
  k ∉ ks →
  row_stepped cols k r r1 →
  row_parsable parsable parameters cols ks r1
  = row_parsable parsable parameters cols ks r.
Proof.
  intros Hnin Hstep. unfold row_parsable.
  induction ks as [|k' ks IH]; simpl; [done|].
  apply not_elem_of_cons in Hnin as [Hne Hnin].
  rewrite (IH Hnin). f_equal. unfold step_keeps.
  rewrite (column_cell_stepped _ _ _ _ _ Hstep); [done|]. by intros ->.
Qed.

Lemma row_after_nil cols (r : row) : row_after cols [] r r.
Proof. by split. Qed.

(** The pass for [k] followed by the passes for [ks]. *)
Lemma row_after_step cols k ks (r r1 r' : row) :
  row_stepped cols k r r1 →
  row_after cols ks r1 r' →
  row_after cols (k :: ks) r r'.
Proof.
  intros [Hl1 Hf1] [Hl2 Hf2]. split; [congruence|].
  intros j c Hj [Hne Hc]%not_elem_of_cons.
  rewrite (Hf2 j c Hj Hc). apply Hf1. congruence.
Qed.

(** A successful [set_types], row by row: the output holds the rows of the
    input that denote a number in every numerically coerced column, in
    their order, each changed in the key columns only. *)
Lemma set_types_loop_rows (parsable : value -> bool) parameters ks df out :
  keeps_length astype →
  (∀ k, k ∈ ks → is_numeric parameters k = true → coerces to_numeric parsable) →
  NoDup ks →
  table_wf df →
  loop parameters df ks = Ok out →
  columns out = columns df
  ∧ Forall2 (row_after (columns df) ks)
      (List.filter (row_parsable parsable parameters (columns df) ks) (rows df))
      (rows out).
Proof.
  intros Hlen Hco Hnd. revert df Hco.
  induction Hnd as [|k ks Hnin Hnd IH]; intros df Hco Hwf Hloop; simpl in *.
  - injection Hloop as <-. split; [done|].
    rewrite filter_all_true by done.
    apply Forall_Forall2_diag, Forall_forall. intros r _. apply row_after_nil.
  - apply bind_Ok_inv in Hloop as (df1 & Hstep & Hloop).
    assert (is_numeric parameters k = true → coerces to_numeric parsable) as Hco_k
      by (apply Hco; apply elem_of_cons; by left).
    destruct (set_types_step_rows parsable _ _ _ _ Hwf Hlen Hco_k Hstep)
      as (Hcols & Hrows).
    destruct (set_types_step_shape _ _ _ _ Hwf Hstep) as [Hwf1 _].
    destruct (IH df1) as [Hcols' Hrest]; [|done|done|].
    { intros k' Hk'. apply Hco. apply elem_of_cons. by right. }
    rewrite Hcols in Hcols', Hrest.
    split; [done|].
    eapply Forall2_trans; [| |exact Hrest].
    + intros r r1 r' H1 H2. exact (row_after_step _ _ _ _ _ _ H1 H2).
    + apply Forall2_filter_both; [|exact Hrows].
      intros r r1 H1. exact (row_parsable_stepped _ _ _ _ _ _ _ Hnin H1).
Qed.


End SetTypesProperties.

Section SetTypesTheorems.

Context (to_numeric : list value -> list value).
Context (astype : string -> list value -> result (list value)).

#[local] Abbreviation step := (set_types_step to_numeric astype).
#[local] Abbreviation loop := (set_types_loop to_numeric astype).


(** C10.  In a table that [set_types] returns, the labels are those of the
    input, the rows are the surviving rows of the input in their order, and
    in every column whose label is no key of the mapping each surviving row
    holds the cell it held in the input. *)
Theorem set_types_frame (parsable : value -> bool)
    (parameters : dict) (df out : DataFrame) :
  coerces to_numeric parsable →
  keeps_length astype →
  NoDup (keys parameters) →
  table_wf df →
  set_types to_numeric astype df parameters = Ok out →
  columns out = columns df
  ∧ ∃ kept,
      kept = List.filter
               (row_parsable parsable parameters (columns df) (keys parameters))
               (rows df)
      ∧ kept `sublist_of` rows df
      ∧ Forall2 (fun r r' =>
                   length r' = length r
                   ∧ ∀ j c, columns df !! j = Some c → c ∉ keys parameters →
                            r' !! j = r !! j)
          kept (rows out).
Proof.
  intros Hco Hlen Hnd Hwf Hout.
  destruct (set_types_loop_rows to_numeric astype parsable _ _ _ _ Hlen
              (fun _ _ _ => Hco) Hnd Hwf Hout) as [Hcols Hrows].
  split; [done|]. eexists. split; [reflexivity|].
  split; [apply filter_sublist | exact Hrows].
Qed.

(** X1.  The passes run until the first key that labels no column of the
    table: when the passes for the keys before it have returned, [set_types]
    raises the KeyError of that key, whatever type the key is mapped to. *)
Theorem set_types_missing_column parameters df ks1 k ks2 d :
  keys parameters = ks1 ++ k :: ks2 →
  loop parameters df ks1 = Ok d →
  k ∉ columns df →
  set_types to_numeric astype df parameters = Raise (KeyError k).
Proof.
  intros Hkeys Hbefore Hnin.
  unfold set_types. rewrite Hkeys, set_types_loop_app, Hbefore. simpl.
  destruct (set_types_loop_columns _ _ _ _ _ _ Hbefore) as [Hcols _].
  assert (k ∈ keys parameters) as Hk.
  { rewrite Hkeys. apply elem_of_app. right. apply elem_of_cons. by left. }
  destruct (dict_get_elem _ _ Hk) as [t Hget].
  unfold set_types_step, dict_getitem, getitem. rewrite Hget. simpl.
  unfold positions. rewrite Hcols, (positions_from_nil _ _ _ Hnin).
  by destruct (String.eqb t "to_numeric").
Qed.

(** X2.  [set_types] returns a table only if every key of the mapping
    labels a column of its input, and then the output has the labels of the
    input. *)
Theorem set_types_keys_are_columns parameters df out :
  set_types to_numeric astype df parameters = Ok out →
  Forall (fun k => k ∈ columns df) (keys parameters)
  ∧ columns out = columns df.
Proof.
  intros Hout. destruct (set_types_loop_columns _ _ _ _ _ _ Hout). by split.
Qed.

(** X3.  [set_types] keeps a table well shaped, one cell per label in every
    row, and never returns more rows than it was given. *)
Theorem set_types_keeps_shape parameters df out :
  keeps_length astype →
  table_wf df →
  set_types to_numeric astype df parameters = Ok out →
  table_wf out ∧ (length (rows out) ≤ length (rows df))%nat.
Proof.
  intros _. unfold set_types. generalize (keys parameters) as ks.
  intros ks. revert df.
  induction ks as [|k ks IH]; intros df Hwf; simpl.
  - intros [= <-]. by split.
  - intros (df1 & Hstep & Hloop)%bind_Ok_inv.
    destruct (set_types_step_shape _ _ _ _ _ _ Hwf Hstep) as [Hwf1 Hle1].
    destruct (IH _ Hwf1 Hloop) as [Hwf' Hle]. split; [done | lia].
Qed.

(** X4.  A mapping without [to_numeric] drops no row: the output has the
    rows of the input in their order, each with the cells it had in the
    columns that are no key. *)
Theorem set_types_cast_only parameters df out :
  keeps_length astype →
  NoDup (keys parameters) →
  table_wf df →
  (∀ k, is_numeric parameters k = false) →
  set_types to_numeric astype df parameters = Ok out →
  length (rows out) = length (rows df)
  ∧ Forall2 (fun r r' =>
               ∀ j c, columns df !! j = Some c → c ∉ keys parameters →
                      r' !! j = r !! j)
      (rows df) (rows out).
Proof.
  intros Hlen Hnd Hwf Hcast Hout.
  assert (∀ k, k ∈ keys parameters → is_numeric parameters k = true →
            coerces to_numeric (fun _ => true)) as Hco
    by (intros k _ Hk; by rewrite Hcast in Hk).
  destruct (set_types_loop_rows to_numeric astype (fun _ => true)
              _ _ _ _ Hlen Hco Hnd Hwf Hout) as [_ Hrows].
  rewrite filter_all_true in Hrows; cycle 1.
  { intros r. unfold row_parsable. apply forallb_forall. intros k _.
    unfold step_keeps. by rewrite Hcast. }
  split; [symmetry; by eapply Forall2_length|].
  eapply Forall2_impl; [exact Hrows|].
  intros r r' (_ & Hframe). exact Hframe.
Qed.

End SetTypesTheorems.

(** ** ETL.run *)

Section RunProperties.

Context (to_numeric : list value -> list value).
Context (astype : string -> list value -> result (list value)).
Context (eval_expr :
  Configuration -> TableSpec -> TransformationStep -> world -> result callable * world).

#[local] Abbreviation py_eval := (ETL.py_eval to_numeric astype eval_expr).
#[local] Abbreviation apply_step := (ETL.apply_step to_numeric astype eval_expr).
#[local] Abbreviation apply_steps := (ETL.apply_steps to_numeric astype eval_expr).
#[local] Abbreviation table_transformations :=
  (ETL.table_transformations to_numeric astype eval_expr).
#[local] Abbreviation run := (ETL.run to_numeric astype eval_expr).

Lemma apply_steps_app cfg tables_t trs1 trs2 w :
  apply_steps cfg tables_t (trs1 ++ trs2) w
  = match apply_steps cfg tables_t trs1 w with
    | (Ok _, w1) => apply_steps cfg tables_t trs2 w1
    | (Raise e, w1) => (Raise e, w1)
    end.
Proof.
  revert w. induction trs1 as [|tr trs1 IH]; intros w; simpl; [done|].
  destruct (apply_step cfg tables_t tr w) as [[u|e] w1]; [apply IH | done].
Qed.

Lemma table_transformations_app cfg specs1 specs2 w :
  table_transformations cfg (specs1 ++ specs2) w
  = match table_transformations cfg specs1 w with
    | (Ok _, w1) => table_transformations cfg specs2 w1
    | (Raise e, w1) => (Raise e, w1)
    end.
Proof.
  revert w. induction specs1 as [|s specs1 IH]; intros w; simpl; [done|].
  destruct (apply_steps cfg s (transformations s) w) as [[u|e] w1];
    [apply IH | done].
Qed.

(** A step whose name does not evaluate stops the table stage there, in the
    world the evaluation left. *)
Lemma table_transformations_stuck cfg pre spec post before tr after w0 w1 w2 w3 e :
  transformations spec = before ++ tr :: after →
  table_transformations cfg pre w0 = (Ok tt, w1) →
  apply_steps cfg spec before w1 = (Ok tt, w2) →
  py_eval cfg spec tr w2 = (Raise e, w3) →
  table_transformations cfg (pre ++ spec :: post) w0 = (Raise e, w3).
Proof.
  intros Hsplit Hpre Hbefore Heval.
  rewrite table_transformations_app, Hpre. simpl.
  rewrite Hsplit, apply_steps_app, Hbefore. simpl.
  unfold ETL.apply_step. by rewrite Heval.
Qed.

(** The joins before the last one only decide whether the last one is
    reached. *)
Lemma joins_snoc (d : gmap string DataFrame) js j merged :
  Forall (fun j' => ∃ m, ETL.join_one d j' = Ok m) js →
  ETL.joins d (js ++ [j]) merged
  = ETL.join_one d j ≫= (fun m => Ok (Some m)).
Proof.
  intros Hok. revert merged.
  induction Hok as [|j' js [m Hm] _ IH]; intros merged; simpl.
  - by destruct (ETL.join_one d j).
  - rewrite Hm. simpl. apply IH.
Qed.


(** C1, as amended.  A transformation name is resolved by evaluating the
    configured string in the frame of [run].  When the evaluation of the
    name of a step raises, and every step before it has succeeded, the run
    ends with that exception; no later step and no join is run and [run]
    hands nothing to the destination: the destination holds what evaluated
    code has written on its own up to the failure. *)
Theorem unresolved_name_ends_run
    (source_data_dct : gmap string DataFrame) (configuration : Configuration)
    pre spec post before tr after (w1 w2 w3 : world) e :
  tables configuration = pre ++ spec :: post →
  transformations spec = before ++ tr :: after →
  table_transformations configuration pre (mkWorld source_data_dct [])
  = (Ok tt, w1) →
  apply_steps configuration spec before w1 = (Ok tt, w2) →
  py_eval configuration spec tr w2 = (Raise e, w3) →
  run source_data_dct configuration = mkOutcome (w_written w3) (Raise e).
Proof.
  intros Htables Hsplit Hpre Hbefore Heval.
  unfold ETL.run. rewrite Htables.
  by rewrite (table_transformations_stuck _ _ _ _ _ _ _ _ _ _ _ _
                Hsplit Hpre Hbefore Heval).
Qed.

(** C2.  When the table stage succeeds and every join before the last one
    succeeds, the run writes the result of the last join, computed from the
    transformed tables alone: the earlier results are dropped.  It is the
    one table that [run] hands to the destination, after whatever evaluated
    code has written on its own. *)
Theorem last_join_is_output
    (source_data_dct : gmap string DataFrame) (configuration : Configuration)
    (w : world) js j :
  table_transformations configuration (tables configuration)
    (mkWorld source_data_dct []) = (Ok tt, w) →
  join configuration = js ++ [j] →
  Forall (fun j' => ∃ m, ETL.join_one (w_tables w) j' = Ok m) js →
  run source_data_dct configuration
  = match ETL.join_one (w_tables w) j with
    | Ok m => mkOutcome (w_written w ++ [m]) (Ok tt)
    | Raise e => mkOutcome (w_written w) (Raise e)
    end.
Proof.
  intros Htables Hjoin Hok. unfold ETL.run.
  rewrite Htables, Hjoin. rewrite (joins_snoc _ _ _ _ Hok).
  by destruct (ETL.join_one (w_tables w) j).
Qed.

(** C3: what the code does without a join.  After a successful table stage
    the read of the unassigned local [merged] raises UnboundLocalError, and
    [run] hands nothing to the destination. *)
Theorem no_join_unbound_local
    (source_data_dct : gmap string DataFrame) (configuration : Configuration)
    (w : world) :
  table_transformations configuration (tables configuration)
    (mkWorld source_data_dct []) = (Ok tt, w) →
  join configuration = [] →
  run source_data_dct configuration
  = mkOutcome (w_written w) (Raise (UnboundLocalError "merged")).
Proof.
  intros Htables Hjoin. unfold ETL.run. by rewrite Htables, Hjoin.
Qed.


(** C9.  A table entry with an empty transformation list changes nothing:
    executed alone it returns the world, and in it the table set, as it
    was, and wherever it stands in the list of table entries the loop passes
    over it. *)
Theorem empty_transformations_identity
    (configuration : Configuration) (w : world) (name : string) :
  table_transformations configuration [mkTableSpec name []] w = (Ok tt, w)
  ∧ (∀ df, w_tables w !! name = Some df →
       ∃ w', apply_steps configuration (mkTableSpec name []) [] w = (Ok tt, w')
             ∧ w_tables w' !! name = Some df)
  ∧ (∀ pre post,
       table_transformations configuration (pre ++ mkTableSpec name [] :: post) w
       = table_transformations configuration (pre ++ post) w).
Proof.
  split; [reflexivity|]. split.
  - intros df Hdf. exists w. by split.
  - intros pre post. rewrite !table_transformations_app.
    by destruct (table_transformations configuration pre w) as [[u|e] w1].
Qed.

End RunProperties.

(** * Further properties of the code *)

(** ** ETL.run: the table stage with the module's transformations *)

Section TableStage.

Context (to_numeric : list value -> list value).
Context (astype : string -> list value -> result (list value)).
Context (eval_expr :
  Configuration -> TableSpec -> TransformationStep -> world -> result callable * world).

#[local] Abbreviation py_eval := (ETL.py_eval to_numeric astype eval_expr).
#[local] Abbreviation apply_step := (ETL.apply_step to_numeric astype eval_expr).
#[local] Abbreviation apply_steps := (ETL.apply_steps to_numeric astype eval_expr).
#[local] Abbreviation table_transformations :=
  (ETL.table_transformations to_numeric astype eval_expr).
#[local] Abbreviation run := (ETL.run to_numeric astype eval_expr).
#[local] Abbreviation chain := (chain to_numeric astype).

(** All the steps of the entries [specs] name transformations of the
    module. *)
#[local] Abbreviation module_steps trs :=
  (Forall (fun tr => module_name (tr_name tr) = true) trs).
#[local] Abbreviation module_entries specs :=
  (Forall (fun s => module_steps (transformations s)) specs).

(** One step that names a transformation of the module, on a table that is
    in the table set: the transformation is applied to the table and its
    result stored; an exception leaves the world as it was. *)
Lemma apply_step_module cfg tables_t tr w df :
  module_name (tr_name tr) = true →
  w_tables w !! table_name tables_t = Some df →
  apply_step cfg tables_t tr w
  = match chain df [tr] with
    | Ok df' =>
        (Ok tt, mkWorld (<[table_name tables_t := df']> (w_tables w)) (w_written w))
    | Raise e => (Raise e, w)
    end.
Proof.
  intros Hname Hdf. unfold ETL.apply_step, ETL.py_eval, module_name in *. simpl.
  destruct (String.eqb (tr_name tr) "rename").
  - unfold ETL.table_getitem. rewrite Hdf. unfold module_function. simpl.
    by destruct (rename df (tr_parameters tr)).
  - simpl in Hname. rewrite Hname.
    unfold ETL.table_getitem. rewrite Hdf. unfold module_function.
    by destruct (set_types to_numeric astype df (tr_parameters tr)).
Qed.

Lemma apply_step_module_missing cfg tables_t tr w :
  module_name (tr_name tr) = true →
  w_tables w !! table_name tables_t = None →
  apply_step cfg tables_t tr w = (Raise (KeyError (table_name tables_t)), w).
Proof.
  intros Hname Hnone. unfold ETL.apply_step, ETL.py_eval, module_name in *.
  destruct (String.eqb (tr_name tr) "rename").
  - unfold ETL.table_getitem. by rewrite Hnone.
  - simpl in Hname. rewrite Hname. unfold ETL.table_getitem. by rewrite Hnone.
Qed.

(** The steps of one entry, all naming transformations of the module, on a
    table that is in the table set. *)
Lemma apply_steps_module cfg tables_t trs w df :
  w_tables w !! table_name tables_t = Some df →
  module_steps trs →
  ∃ w',
    apply_steps cfg tables_t trs w = (chain df trs ≫= (fun _ => Ok tt), w')
    ∧ w_written w' = w_written w
    ∧ (∀ n, n ≠ table_name tables_t → w_tables w' !! n = w_tables w !! n)
    ∧ (∀ df', chain df trs = Ok df' →
         w_tables w' = <[table_name tables_t := df']> (w_tables w)).
Proof.
  intros Hdf Hmod. revert w df Hdf.
  induction Hmod as [|tr trs Hname _ IH]; intros w df Hdf.
  - exists w. simpl. split; [done|]. split; [done|]. split; [done|].
    intros df' [= <-]. by rewrite insert_id.
  - cbn [ETL.apply_steps]. rewrite (apply_step_module _ _ _ _ _ Hname Hdf).
    simpl.
    destruct (if String.eqb (tr_name tr) "rename"
              then rename df (tr_parameters tr)
              else if String.eqb (tr_name tr) "set_types"
                   then set_types to_numeric astype df (tr_parameters tr)
                   else Raise (NameError (tr_name tr))) as [df1|e] eqn:E; simpl.
    + destruct (IH (mkWorld (<[table_name tables_t := df1]> (w_tables w))
                      (w_written w)) df1) as (w' & Hrun & Hwr & Hframe & Hok).
      { simpl. apply lookup_insert_eq. }
      exists w'. split; [exact Hrun|]. simpl in *. split; [done|]. split.
      * intros n Hn. rewrite (Hframe n Hn). by apply lookup_insert_ne.
      * intros df' Hchain. rewrite (Hok df' Hchain). apply insert_insert_eq.
    + exists w. split; [done|]. split; [done|]. split; [done|]. by intros df'.
Qed.

(** X7.  Steps that name transformations of the module, configured for a
    table that is in the table set, act on that table alone: they are
    chained on it, the run stops with the exception of the first step that
    raises, no other table is touched, nothing is handed to the
    destination, and when all steps succeed the entry of the table is the
    result of the chain. *)
Theorem steps_of_one_table cfg tables_t trs w df :
  w_tables w !! table_name tables_t = Some df →
  module_steps trs →
  ∃ w',
    apply_steps cfg tables_t trs w = (chain df trs ≫= (fun _ => Ok tt), w')
    ∧ w_written w' = w_written w
    ∧ (∀ n, n ≠ table_name tables_t → w_tables w' !! n = w_tables w !! n)
    ∧ (∀ df', chain df trs = Ok df' →
         w_tables w' = <[table_name tables_t := df']> (w_tables w)).
Proof. apply apply_steps_module. Qed.

Lemma apply_steps_module_inv cfg tables_t trs w w' :
  module_steps trs →
  apply_steps cfg tables_t trs w = (Ok tt, w') →
  (trs = [] ∧ w' = w)
  ∨ ∃ df df', w_tables w !! table_name tables_t = Some df
              ∧ chain df trs = Ok df'
              ∧ w_tables w' = <[table_name tables_t := df']> (w_tables w)
              ∧ w_written w' = w_written w.
Proof.
  intros Hmod. destruct trs as [|tr trs]; [intros [= <-]; by left|].
  intros Hok. right.
  destruct (w_tables w !! table_name tables_t) as [df|] eqn:Hdf.
  - destruct (apply_steps_module cfg _ _ _ _ Hdf Hmod)
      as (w'' & Hrun & Hwr & _ & Hres).
    rewrite Hrun in Hok.
    destruct (chain df (tr :: trs)) as [df'|e] eqn:E; [|discriminate].
    injection Hok as <-.
    exists df, df'. repeat split; auto.
  - exfalso. apply Forall_cons in Hmod as [Hname _].
    cbn [ETL.apply_steps] in Hok.
    by rewrite (apply_step_module_missing _ _ _ _ Hname Hdf) in Hok.
Qed.

(** X8.  A table stage all of whose steps name transformations of the
    module, when it succeeds, leaves the set of table names as it was, every
    table that no entry names as it was, and the destination as it was. *)
Theorem table_stage_frame cfg specs w w' :
  module_entries specs →
  table_transformations cfg specs w = (Ok tt, w') →
  dom (w_tables w') = dom (w_tables w)
  ∧ (∀ n, n ∉ map table_name specs → w_tables w' !! n = w_tables w !! n)
  ∧ w_written w' = w_written w.
Proof.
  intros Hmod. revert w.
  induction Hmod as [|s specs Hs _ IH]; intros w; simpl.
  - intros [= <-]. by repeat split.
  - destruct (apply_steps cfg s (transformations s) w) as [[[]|e] w1] eqn:E;
      [|done].
    intros Hrest. destruct (IH _ Hrest) as (Hdom & Hframe & Hwr).
    apply (apply_steps_module_inv _ _ _ _ _ Hs) in E
      as [[_ ->]|(df & df' & Hdf & _ & Htab & Hwr1)].
    + split; [done|]. split; [|done].
      intros n [_ Hn]%not_elem_of_cons. by apply Hframe.
    + split; [|split].
      * rewrite Hdom, Htab. by apply dom_insert_lookup_L.
      * intros n [Hne Hn]%not_elem_of_cons.
        rewrite (Hframe n Hn), Htab. by apply lookup_insert_ne.
      * congruence.
Qed.

(** X9.  A step that names a transformation of the module, configured for a
    table that is not in the table set, ends the run with the KeyError of
    the table name; nothing is handed to the destination by that step or
    after it. *)
Theorem step_on_missing_table
    (source_data_dct : gmap string DataFrame) (configuration : Configuration)
    pre spec post tr rest (w : world) :
  tables configuration = pre ++ spec :: post →
  table_transformations configuration pre (mkWorld source_data_dct [])
  = (Ok tt, w) →
  transformations spec = tr :: rest →
  module_name (tr_name tr) = true →
  w_tables w !! table_name spec = None →
  run source_data_dct configuration
  = mkOutcome (w_written w) (Raise (KeyError (table_name spec))).
Proof.
  intros Htables Hpre Hsteps Hname Hnone.
  unfold ETL.run. rewrite Htables, table_transformations_app, Hpre. simpl.
  rewrite Hsteps. cbn [ETL.apply_steps].
  by rewrite (apply_step_module_missing _ _ _ _ Hname Hnone).
Qed.

(** The module's transformations do not look at the frame. *)
Lemma apply_steps_module_frame cfg1 cfg2 t1 t2 trs w :
  module_steps trs →
  table_name t1 = table_name t2 →
  apply_steps cfg1 t1 trs w = apply_steps cfg2 t2 trs w.
Proof.
  intros Hmod Hname. revert w.
  induction Hmod as [|tr trs Htr _ IH]; intros w; [done|].
  cbn [ETL.apply_steps].
  assert (apply_step cfg1 t1 tr w = apply_step cfg2 t2 tr w) as ->.
  { destruct (w_tables w !! table_name t1) as [df|] eqn:Hdf.
    - rewrite (apply_step_module cfg1 t1 _ _ _ Htr Hdf).
      rewrite Hname in Hdf. rewrite (apply_step_module cfg2 t2 _ _ _ Htr Hdf).
      by rewrite Hname.
    - rewrite (apply_step_module_missing cfg1 t1 _ _ Htr Hdf).
      rewrite Hname in Hdf. rewrite (apply_step_module_missing cfg2 t2 _ _ Htr Hdf).
      by rewrite Hname. }
  destruct (apply_step cfg2 t2 tr w) as [[u|e] w1]; [apply IH | done].
Qed.

Lemma table_transformations_module_frame cfg1 cfg2 specs w :
  module_entries specs →
  table_transformations cfg1 specs w = table_transformations cfg2 specs w.
Proof.
  intros Hmod. revert w. induction Hmod as [|s specs Hs _ IH]; intros w; [done|].
  cbn [ETL.table_transformations].
  rewrite (apply_steps_module_frame cfg1 cfg2 s s _ _ Hs eq_refl).
  destruct (apply_steps cfg2 s (transformations s) w) as [[u|e] w1];
    [apply IH | done].
Qed.

(** X10.  In a configuration all of whose steps name transformations of the
    module, two entries for the same table, one after the other, act as one
    entry with the steps of the first followed by the steps of the second:
    the table stages of the two configurations end alike, in result, in
    exception and in world. *)
Theorem same_table_entries_concatenate cfg1 cfg2 pre name trs1 trs2 post w :
  module_entries pre →
  module_steps trs1 →
  module_steps trs2 →
  module_entries post →
  table_transformations cfg1
    (pre ++ mkTableSpec name trs1 :: mkTableSpec name trs2 :: post) w
  = table_transformations cfg2 (pre ++ mkTableSpec name (trs1 ++ trs2) :: post) w.
Proof.
  intros Hpre H1 H2 Hpost.
  rewrite !table_transformations_app.
  rewrite (table_transformations_module_frame cfg1 cfg2 pre w Hpre).
  destruct (table_transformations cfg2 pre w) as [[u|e] w1]; [|done].
  cbn [ETL.table_transformations transformations].
  rewrite apply_steps_app.
  rewrite (apply_steps_module_frame cfg1 cfg2 (mkTableSpec name trs1)
             (mkTableSpec name (trs1 ++ trs2)) trs1 w1 H1 eq_refl).
  destruct (apply_steps cfg2 (mkTableSpec name (trs1 ++ trs2)) trs1 w1)
    as [[u1|e] w2]; [|done].
  rewrite (apply_steps_module_frame cfg1 cfg2 (mkTableSpec name trs2)
             (mkTableSpec name (trs1 ++ trs2)) trs2 w2 H2 eq_refl).
  destruct (apply_steps cfg2 (mkTableSpec name (trs1 ++ trs2)) trs2 w2)
    as [[u2|e] w3]; [|done].
  by apply table_transformations_module_frame.
Qed.

Lemma world_eq (w w' : world) :
  w_tables w = w_tables w' → w_written w = w_written w' → w = w'.
Proof. destruct w, w'. simpl. by intros -> ->. Qed.

(** X11.  Entries for two different tables whose steps name transformations
    of the module can change places: when the table stage succeeds in one
    order it succeeds in the other, with the same world. *)
Theorem different_table_entries_commute cfg1 cfg2 s1 s2 w w' :
  table_name s1 ≠ table_name s2 →
  module_steps (transformations s1) →
  module_steps (transformations s2) →
  table_transformations cfg1 [s1; s2] w = (Ok tt, w') →
  table_transformations cfg2 [s2; s1] w = (Ok tt, w').
Proof.
  intros Hne Hm1 Hm2. cbn [ETL.table_transformations].
  destruct (apply_steps cfg1 s1 (transformations s1) w) as [[[]|e] w1] eqn:E1;
    [|done].
  destruct (apply_steps cfg1 s2 (transformations s2) w1) as [[[]|e] w2] eqn:E2;
    [|done].
  intros [= <-].
  apply (apply_steps_module_inv _ _ _ _ _ Hm1) in E1
    as [[T1 ->]|(df1 & df1' & Hdf1 & Hc1 & Ht1 & Hw1)].
  - rewrite (apply_steps_module_frame cfg2 cfg1 s2 s2 _ _ Hm2 eq_refl), E2.
    by rewrite T1.
  - apply (apply_steps_module_inv _ _ _ _ _ Hm2) in E2
      as [[T2 ->]|(df2 & df2' & Hdf2 & Hc2 & Ht2 & Hw2)].
    + rewrite T2. cbn [ETL.apply_steps].
      destruct (apply_steps_module cfg2 s1 _ _ _ Hdf1 Hm1)
        as (v & -> & Hv1 & _ & Hv2).
      rewrite Hc1. simpl. f_equal. apply world_eq; [|congruence].
      rewrite (Hv2 _ Hc1). congruence.
    + rewrite Ht1, lookup_insert_ne in Hdf2 by done.
      destruct (apply_steps_module cfg2 s2 _ _ _ Hdf2 Hm2)
        as (v & -> & Hv1 & Hvf & Hv2).
      rewrite Hc2. simpl.
      assert (w_tables v !! table_name s1 = Some df1) as Hdf1'.
      { rewrite (Hvf _ Hne). done. }
      destruct (apply_steps_module cfg2 s1 _ _ _ Hdf1' Hm1)
        as (u & -> & Hu1 & _ & Hu2).
      rewrite Hc1. simpl. f_equal. apply world_eq; [|congruence].
      rewrite (Hu2 _ Hc1), (Hv2 _ Hc2), Ht2, Ht1.
      by apply insert_insert_ne.
Qed.

End TableStage.

(** ** ETL.run: the joins *)



Lemma length_drop_positions {A B} (idx : list nat) (n : nat)
    (l : list A) (l' : list B) :
  length l = length l' →
  length (drop_positions idx n l) = length (drop_positions idx n l').
Proof.
  revert n l'. induction l as [|x l IH]; intros n [|y l'] Hlen; simpl in *;
    try discriminate; [done|].
  destruct (is_key idx n); simpl; rewrite (IH (S n) l'); auto.
Qed.

Lemma length_suffixed sfx idx other n cols :
  length (suffixed sfx idx other n cols) = length cols.
Proof.
  revert n. induction cols as [|c cols IH]; intros n; simpl; [done|].
  by rewrite IH.
Qed.

Lemma length_blank_with_key width idx kv :
  length (blank_with_key width idx kv) = width.
Proof.
  unfold blank_with_key.
  assert (∀ (ps : list (nat * value)) (acc : row),
            length (fold_left (fun acc p => <[p.1 := p.2]> acc) ps acc)
            = length acc) as Hfold.
  { induction ps as [|p ps IH]; intros acc; simpl; [done|].
    by rewrite IH, length_insert. }
  by rewrite Hfold, length_replicate.
Qed.

Lemma Forall_flat_map {A B} (P : B -> Prop) (f : A -> list B) (l : list A) :
  (∀ x, x ∈ l → Forall P (f x)) → Forall P (flat_map f l).
Proof.
  induction l as [|x l IH]; intros Hf; simpl; [constructor|].
  apply Forall_app. split.
  - apply Hf. apply elem_of_cons. by left.
  - apply IH. intros y Hy. apply Hf. apply elem_of_cons. by right.
Qed.

Lemma filter_elem {A} (p : A -> bool) (l : list A) (x : A) :
  x ∈ List.filter p l → x ∈ l.
Proof.
  intros Hx. apply list_elem_of_In. apply list_elem_of_In in Hx.
  by apply filter_In in Hx as [? _].
Qed.

(** Sorting by key keeps what holds of every row. *)
Lemma Forall_insert_by_key (P : row -> Prop) idx (r : row) (sorted : list row) :
  P r → Forall P sorted → Forall P (insert_by_key idx r sorted).
Proof.
  intros Hr. induction 1 as [|x xs Hx Hxs IH]; simpl.
  - by repeat constructor.
  - destruct (key_leb _ _); by repeat constructor.
Qed.

Lemma Forall_sort_by_key (P : row -> Prop) idx (rs : list row) :
  Forall P rs → Forall P (sort_by_key idx rs).
Proof.
  induction 1 as [|r rs Hr _ IH]; simpl; [constructor|].
  by apply Forall_insert_by_key.
Qed.

(** X12.  A join of two well-shaped tables is well shaped: every row of the
    result has one cell per label of the result, for each of the four join
    kinds. *)
Theorem merge_keeps_shape (left right out : DataFrame) on how :
  table_wf left →
  table_wf right →
  merge left right on how = Ok out →
  table_wf out.
Proof.
  intros Hl Hr. unfold merge.
  destruct (String.eqb how "cross"); [done|].
  case_bool_decide; [done|].
  intros ([li ri] & _ & Hout)%bind_Ok_inv. cbn [fst snd] in Hout.
  unfold table_wf in *. rewrite Forall_forall in Hl, Hr.
  set (w := length (columns left)
            + length (drop_positions ri 0 (columns right))).
  assert (∀ l r, l ∈ rows left → r ∈ rows right →
            length (l ++ drop_positions ri 0 r) = w) as Hglue.
  { intros l r Hl' Hr'. rewrite length_app, (Hl l Hl').
    unfold w. f_equal. apply length_drop_positions. by apply Hr. }
  assert (∀ l, l ∈ rows left →
            length (l ++ replicate
                           (length (drop_positions ri 0 (columns right))) VMissing)
            = w) as Hlonly.
  { intros l Hl'. by rewrite length_app, length_replicate, (Hl l Hl'). }
  assert (∀ r, r ∈ rows right →
            length (blank_with_key (length (columns left)) li (key_of ri r)
                      ++ drop_positions ri 0 r) = w) as Hronly.
  { intros r Hr'. rewrite length_app, length_blank_with_key.
    unfold w. f_equal. apply length_drop_positions. by apply Hr. }
  assert (length (suffixed "_x" li (drop_positions ri 0 (columns right)) 0
                    (columns left)
                  ++ drop_positions ri 0
                       (suffixed "_y" ri (drop_positions li 0 (columns left)) 0
                          (columns right))) = w) as Hcols.
  { rewrite length_app, length_suffixed. unfold w. f_equal.
    apply length_drop_positions, length_suffixed. }
  assert (Forall (fun r => length r = w)
            (flat_map (fun l =>
               map (fun r => l ++ drop_positions ri 0 r)
                 (List.filter (fun r => same_key (key_of li l) (key_of ri r))
                    (rows right))) (rows left))) as Hinner.
  { apply Forall_flat_map. intros l Hl'. apply Forall_fmap, Forall_forall.
    intros r Hr'%filter_elem. by apply Hglue. }
  assert (Forall (fun r => length r = w)
            (flat_map (fun l =>
               match List.filter (fun r => same_key (key_of li l) (key_of ri r))
                       (rows right) with
               | [] => [l ++ replicate
                               (length (drop_positions ri 0 (columns right)))
                               VMissing]
               | ms => map (fun r => l ++ drop_positions ri 0 r) ms
               end) (rows left))) as Hleft.
  { apply Forall_flat_map. intros l Hl'.
    destruct (List.filter _ (rows right)) as [|m ms] eqn:E.
    - constructor; [by apply Hlonly | constructor].
    - apply Forall_fmap, Forall_forall. intros r Hr'. apply Hglue; [done|].
      apply (filter_elem (fun r => same_key (key_of li l) (key_of ri r))).
      by rewrite E. }
  assert (Forall (fun r => length r = w)
            (flat_map (fun r =>
               match List.filter (fun l => same_key (key_of li l) (key_of ri r))
                       (rows left) with
               | [] => [blank_with_key (length (columns left)) li (key_of ri r)
                          ++ drop_positions ri 0 r]
               | _ => []
               end) (rows right))) as Hunmatched.
  { apply Forall_flat_map. intros r Hr'.
    destruct (List.filter _ (rows left)); constructor; [by apply Hronly|constructor]. }
  assert (Forall (fun r => length r = w)
            (flat_map (fun r =>
               match List.filter (fun l => same_key (key_of li l) (key_of ri r))
                       (rows left) with
               | [] => [blank_with_key (length (columns left)) li (key_of ri r)
                          ++ drop_positions ri 0 r]
               | ms => map (fun l => l ++ drop_positions ri 0 r) ms
               end) (rows right))) as Hright.
  { apply Forall_flat_map. intros r Hr'.
    destruct (List.filter _ (rows left)) as [|m ms] eqn:E.
    - constructor; [by apply Hronly | constructor].
    - apply Forall_fmap, Forall_forall. intros l Hl'. apply Hglue; [|done].
      apply (filter_elem (fun l => same_key (key_of li l) (key_of ri r))).
      by rewrite E. }
  repeat (destruct (String.eqb how _); [injection Hout as <-; simpl;
            rewrite Hcols;
            first [done | by apply Forall_sort_by_key, Forall_app] |]).
  done.
Qed.

(** X13.  A left join loses no row of the left table: every row of [left]
    is the beginning of a row of the result. *)
Theorem left_join_keeps_left_rows (left right out : DataFrame) on (l : row) :
  merge left right on "left" = Ok out →
  l ∈ rows left →
  ∃ r', r' ∈ rows out ∧ l `prefix_of` r'.
Proof.
  unfold merge. change (String.eqb "left" "cross") with false. cbv iota.
  case_bool_decide; [done|].
  intros ([li ri] & _ & Hout)%bind_Ok_inv Hl. cbn [fst snd] in Hout.
  simpl in Hout. injection Hout as <-. simpl.
  destruct (List.filter (fun r => same_key (key_of li l) (key_of ri r))
              (rows right)) as [|m ms] eqn:E.
  - exists (l ++ replicate (length (drop_positions ri 0 (columns right))) VMissing).
    split; [|by apply prefix_app_r].
    apply list_elem_of_In, in_flat_map. exists l.
    split; [by apply list_elem_of_In|]. rewrite E. by left.
  - exists (l ++ drop_positions ri 0 m).
    split; [|by apply prefix_app_r].
    apply list_elem_of_In, in_flat_map. exists l.
    split; [by apply list_elem_of_In|]. rewrite E. by left.
Qed.

Section JoinStage.

Context (to_numeric : list value -> list value).
Context (astype : string -> list value -> result (list value)).
Context (eval_expr :
  Configuration -> TableSpec -> TransformationStep -> world -> result callable * world).

#[local] Abbreviation table_transformations :=
  (ETL.table_transformations to_numeric astype eval_expr).
#[local] Abbreviation run := (ETL.run to_numeric astype eval_expr).


End JoinStage.

(** ** CSVFileSource: reading a directory *)

Lemma substring_all (s : string) : substring 0 (String.length s) s = s.
Proof. induction s as [|a s IH]; simpl; [done | by rewrite IH]. Qed.

Lemma substring_skip (p s : string) (m : nat) :
  substring (String.length p) m (p ++ s) = substring 0 m s.
Proof. induction p as [|a p IH]; simpl; [done | exact IH]. Qed.

Lemma substring_split (s : string) (a b : nat) :
  a + b = String.length s →
  (substring 0 a s ++ substring a b s)%string = s.
Proof.
  revert a. induction s as [|c s IH]; intros [|a] Hlen; simpl in *.
  - by destruct b.
  - discriminate.
  - subst b. by rewrite substring_all.
  - change (String c (substring 0 a s ++ substring a b s)%string = String c s).
    f_equal. apply IH. lia.
Qed.

Lemma string_length_append (p s : string) :
  String.length (p ++ s) = String.length p + String.length s.
Proof. induction p as [|a p IH]; simpl; [done | by rewrite IH]. Qed.

(** [endswith] is the suffix test. *)
Lemma endswith_spec (s suffix : string) :
  endswith s suffix = true ↔ ∃ p, s = (p ++ suffix)%string.
Proof.
  unfold endswith. split.
  - intros [Hle Heq]%andb_true_iff. apply Nat.leb_le in Hle.
    apply String.eqb_eq in Heq.
    exists (substring 0 (String.length s - String.length suffix) s).
    pose proof (substring_split s (String.length s - String.length suffix)
                  (String.length suffix)) as Hsplit.
    rewrite Heq in Hsplit. symmetry. apply Hsplit. lia.
  - intros [p ->]. rewrite string_length_append. apply andb_true_iff. split.
    + apply Nat.leb_le. lia.
    + replace (String.length p + String.length suffix - String.length suffix)
        with (String.length p) by lia.
      rewrite substring_skip, substring_all. apply String.eqb_refl.
Qed.

Lemma first_occurrences_elem (seen rs : list row) (r : row) :
  r ∈ first_occurrences seen rs ↔ r ∈ rs ∧ r ∉ seen.
Proof.
  revert seen. induction rs as [|x rs IH]; intros seen; simpl.
  - split; [by intros ?%elem_of_nil | by intros [?%elem_of_nil _]].
  - case_bool_decide as Hx.
    + rewrite IH. split.
      * intros [? ?]. split; [apply elem_of_cons; by right | done].
      * intros [[->|?]%elem_of_cons ?]; [done | by split].
    + rewrite elem_of_cons, IH, not_elem_of_cons, elem_of_cons. split.
      * intros [->|(? & ? & ?)]; [by split; [left|] | by split; [right|]].
      * intros [[->|?] ?]; [by left|].
        destruct (decide (r = x)) as [->|?]; [by left | by right].
Qed.

Lemma first_occurrences_NoDup (seen rs : list row) :
  NoDup (first_occurrences seen rs).
Proof.
  revert seen. induction rs as [|x rs IH]; intros seen; simpl; [constructor|].
  case_bool_decide; [apply IH|].
  constructor; [|apply IH].
  rewrite first_occurrences_elem. intros [_ Hnin]. apply Hnin.
  apply elem_of_cons. by left.
Qed.

Lemma filter_none {A} (p : A -> bool) (l : list A) :
  Forall (fun x => p x = false) l → List.filter p l = [].
Proof. induction 1 as [|x l Hx _ IH]; simpl; [done | by rewrite Hx]. Qed.

(** The concatenation lays every row out under all the labels. *)
Lemma concat_shape dataframes whole :
  concat dataframes = Ok whole → table_wf whole.
Proof.
  unfold concat, table_wf. destruct dataframes as [|df dfs]; [done|].
  set (all := df :: dfs). intros [= <-]. cbn [rows columns].
  assert (∀ df', Forall (fun r => length r = length (union_columns all))
                   (map (realign (columns df') (union_columns all)) (rows df')))
    as Hone.
  { intros df'. apply Forall_fmap, Forall_forall. intros r0 _.
    unfold realign. simpl. by rewrite length_map. }
  apply Forall_app. split; [apply Hone|].
  apply Forall_flat_map. intros df' _. apply Hone.
Qed.

Section ReadingCSV.

Context (listdir : string -> result (list string)).
Context (read_csv : string -> result DataFrame).

#[local] Abbreviation read_all :=
  (CSVFileSource._read_all_csv_files listdir read_csv).

(** X15.  A directory that holds no file whose name ends in [.csv] gives no
    table: the concatenation of nothing raises ValueError. *)
Theorem no_csv_file_value_error path names :
  listdir path = Ok names →
  Forall (fun f => endswith f ".csv" = false) names →
  read_all path = Raise (ValueError "No objects to concatenate").
Proof.
  intros Hls Hnone. unfold CSVFileSource._read_all_csv_files.
  rewrite Hls. simpl. by rewrite (filter_none _ _ Hnone).
Qed.

(** X16.  A table read from a directory holds each row of the concatenated
    files once: no row occurs twice, every row of the result is a row of the
    concatenation and the other way round, and every row has one cell per
    label. *)
Theorem read_rows_once path names dataframes whole out :
  listdir path = Ok names →
  CSVFileSource.read_files read_csv path
    (List.filter (fun f => endswith f ".csv") names) = Ok dataframes →
  concat dataframes = Ok whole →
  read_all path = Ok out →
  NoDup (rows out)
  ∧ (∀ r, r ∈ rows out ↔ r ∈ rows whole)
  ∧ columns out = columns whole
  ∧ table_wf out.
Proof.
  intros Hls Hread Hcat. unfold CSVFileSource._read_all_csv_files.
  rewrite Hls. simpl. rewrite Hread. simpl. rewrite Hcat. simpl.
  intros [= <-]. simpl.
  split; [apply first_occurrences_NoDup|].
  split; [|split; [done|]].
  - intros r. rewrite first_occurrences_elem. split; [by intros [? _]|].
    intros ?. split; [done | apply not_elem_of_nil].
  - unfold table_wf. simpl. apply Forall_forall.
    intros r [Hr _]%first_occurrences_elem.
    pose proof (concat_shape _ _ Hcat) as Hshape. unfold table_wf in Hshape.
    rewrite Forall_forall in Hshape. by apply Hshape.
Qed.

End ReadingCSV.

(** X17.  Only files whose name ends in [.csv] are read: two ways of reading
    files that agree on those of the directory give the same result. *)
Theorem only_csv_files_are_read
    (listdir : string -> result (list string))
    (read_csv1 read_csv2 : string -> result DataFrame) path :
  (∀ file, endswith file ".csv" = true →
     read_csv1 (os_path_join path file) = read_csv2 (os_path_join path file)) →
  CSVFileSource._read_all_csv_files listdir read_csv1 path
  = CSVFileSource._read_all_csv_files listdir read_csv2 path.
Proof.
  intros Hagree. unfold CSVFileSource._read_all_csv_files.
  destruct (listdir path) as [names|e]; simpl; [|done].
  assert (CSVFileSource.read_files read_csv1 path
            (List.filter (fun f => endswith f ".csv") names)
          = CSVFileSource.read_files read_csv2 path
              (List.filter (fun f => endswith f ".csv") names)) as ->; [|done].
  induction names as [|f names IH]; simpl; [done|].
  destruct (endswith f ".csv") eqn:E; [|exact IH].
  simpl. by rewrite (Hagree f E), IH.
Qed.

Lemma mem_true c l : mem c l = true ↔ c ∈ l.
Proof.
  unfold mem. rewrite existsb_exists. split.
  - intros (x & Hx & ->%String.eqb_eq). by apply list_elem_of_In.
  - intros Hc. exists c. split; [by apply list_elem_of_In | apply String.eqb_refl].
Qed.

Lemma add_labels_known cs acc :
  Forall (fun c => c ∈ acc) cs → fold_left add_label cs acc = acc.
Proof.
  induction 1 as [|c cs Hc _ IH]; simpl; [done|].
  unfold add_label at 2. apply mem_true in Hc. by rewrite Hc.
Qed.

Lemma add_labels_new cs acc :
  NoDup (acc ++ cs) → fold_left add_label cs acc = acc ++ cs.
Proof.
  revert acc. induction cs as [|c cs IH]; intros acc Hnd; simpl.
  - by rewrite app_nil_r.
  - unfold add_label at 2. destruct (mem c acc) eqn:E.
    + exfalso. apply mem_true in E. apply NoDup_app in Hnd as (_ & Hdisj & _).
      apply (Hdisj c E). apply elem_of_cons. by left.
    + rewrite IH; rewrite <- app_assoc; done.
Qed.

Lemma union_columns_same dataframes cols :
  dataframes ≠ [] →
  NoDup cols →
  Forall (fun df => columns df = cols) dataframes →
  union_columns dataframes = cols.
Proof.
  intros Hne Hnd Hall. unfold union_columns.
  destruct Hall as [|df dfs Hdf Hdfs]; [done|]. simpl.
  rewrite Hdf, add_labels_new by done. simpl. clear Hne.
  induction Hdfs as [|df' dfs Hdf' _ IH]; simpl; [done|].
  rewrite Hdf', add_labels_known; [exact IH|]. by apply Forall_forall.
Qed.

Lemma index_of_lookup cols i c :
  NoDup cols → cols !! i = Some c → index_of c cols = Some i.
Proof.
  revert i. induction cols as [|c' cols IH]; intros i Hnd Hi; [done|].
  apply NoDup_cons in Hnd as [Hnin Hnd]. simpl.
  destruct i as [|i]; simpl in Hi.
  - injection Hi as ->. by rewrite String.eqb_refl.
  - destruct (String.eqb_spec c' c) as [->|_].
    + exfalso. apply Hnin. by eapply list_elem_of_lookup_2.
    + by rewrite (IH i Hnd Hi).
Qed.

(** Under its own distinct labels a well-shaped row is laid out as it is. *)
Lemma realign_same cols (r : row) :
  NoDup cols → length r = length cols → realign cols cols r = r.
Proof.
  intros Hnd Hlen. apply list_eq. intros i. unfold realign.
  rewrite list_lookup_fmap.
  destruct (cols !! i) as [c|] eqn:Hc; simpl.
  - unfold column_cell. rewrite (index_of_lookup _ _ _ Hnd Hc). unfold cell.
    destruct (lookup_lt_is_Some_2 r i) as [x ->]; [|done].
    rewrite Hlen. by eapply lookup_lt_Some.
  - symmetry. apply lookup_ge_None. rewrite Hlen. by apply lookup_ge_None.
Qed.

(** X18.  Files that share one header of distinct labels are stacked: the
    table read from the directory has that header and the rows of the files
    in the order of the listing, each distinct row once, at its first
    place. *)
Theorem same_header_files_stack
    (listdir : string -> result (list string))
    (read_csv : string -> result DataFrame)
    path names dataframes cols :
  listdir path = Ok names →
  CSVFileSource.read_files read_csv path
    (List.filter (fun f => endswith f ".csv") names) = Ok dataframes →
  dataframes ≠ [] →
  NoDup cols →
  Forall (fun df => columns df = cols ∧ table_wf df) dataframes →
  CSVFileSource._read_all_csv_files listdir read_csv path
  = Ok (mkDataFrame cols (first_occurrences [] (flat_map rows dataframes))).
Proof.
  intros Hls Hread Hne Hnd Hall. unfold CSVFileSource._read_all_csv_files.
  rewrite Hls. simpl. rewrite Hread. simpl.
  assert (concat dataframes
          = Ok (mkDataFrame cols (flat_map rows dataframes))) as ->; [|done].
  unfold concat. destruct dataframes as [|df dfs] eqn:E; [done|]. rewrite <- E in *.
  rewrite (union_columns_same _ cols Hne Hnd)
    by (eapply Forall_impl; [exact Hall|]; by intros ? [? _]).
  do 2 f_equal. clear E Hread Hne.
  induction Hall as [|df' dfs' [Hcols Hwf] _ IH]; simpl; [done|].
  rewrite IH. f_equal. rewrite Hcols.
  unfold table_wf in Hwf. rewrite Hcols in Hwf.
  induction Hwf as [|r rs Hr _ IHr]; simpl; [done|].
  by rewrite IHr, realign_same.
Qed.


(** ** The loading loop *)

Section LoadingSources.

Context (listdir : string -> result (list string)).
Context (read_csv : string -> result DataFrame).
Context (to_numeric : list value -> list value).
Context (astype : string -> list value -> result (list value)).
Context (eval_expr :
  Configuration -> TableSpec -> TransformationStep -> world -> result callable * world).

#[local] Abbreviation create_source :=
  (SourceFactory.create_source listdir read_csv).
#[local] Abbreviation load_sources := (Loading.load_sources listdir read_csv).
#[local] Abbreviation run_from_sources :=
  (Loading.run listdir read_csv to_numeric astype eval_expr).

(** X19.  With a source type other than [csv], a configuration that names a
    source ends the run with ValueError at the first source, before any
    transformation and with nothing handed to the destination; one that
    names no source does not look at the source type and runs on the empty
    table set. *)
Theorem unknown_source_type (source_type : string) (configuration : Configuration) :
  source_type ≠ "csv" →
  (∀ k path rest,
     run_from_sources source_type ((k, path) :: rest) configuration
     = mkOutcome []
         (Raise (ValueError ("Unknown source type: " ++ source_type)%string)))
  ∧ run_from_sources source_type [] configuration
    = ETL.run to_numeric astype eval_expr ∅ configuration.
Proof.
  intros Hne. split; [|reflexivity].
  intros k path rest. unfold Loading.run. simpl.
  unfold dict_getitem. simpl. rewrite String.eqb_refl. simpl.
  unfold SourceFactory.create_source.
  by destruct (String.eqb_spec source_type "csv").
Qed.

Lemma dict_get_key d k v : dict_get d k = Some v → k ∈ keys d.
Proof.
  induction d as [|[k' v'] d IH]; simpl; [done|].
  destruct (String.eqb_spec k' k) as [->|_].
  - intros _. apply elem_of_cons. by left.
  - intros H. apply elem_of_cons. right. by apply IH.
Qed.

Lemma load_sources_lookup source_type source ks (acc d : gmap string DataFrame) :
  load_sources source_type source ks acc = Ok d →
  (∀ k, k ∉ ks → d !! k = acc !! k)
  ∧ (∀ k, k ∈ ks →
       ∃ path df, dict_get source k = Some path
                  ∧ create_source source_type path = Ok df
                  ∧ d !! k = Some df).
Proof.
  revert acc. induction ks as [|k0 ks IH]; intros acc; simpl.
  - intros [= <-]. split; [done|]. by intros k ?%elem_of_nil.
  - intros (path & Hpath & (df & Hdf & Hrest)%bind_Ok_inv)%bind_Ok_inv.
    destruct (IH _ Hrest) as [Hout Hin].
    unfold dict_getitem in Hpath.
    destruct (dict_get source k0) as [p|] eqn:Hget; [|done].
    injection Hpath as ->.
    split.
    + intros k [Hne Hnin]%not_elem_of_cons.
      rewrite (Hout k Hnin). by apply lookup_insert_ne.
    + intros k Hk. destruct (decide (k ∈ ks)) as [Hks|Hks]; [by apply Hin|].
      apply elem_of_cons in Hk as [->|?]; [|done].
      exists path, df. split; [done|]. split; [done|].
      rewrite (Hout k0 Hks). apply lookup_insert_eq.
Qed.

(** X20.  When the loading loop returns, the table set holds exactly the
    configured source names, and under each name the table that the source
    of its path gives. *)
Theorem loaded_tables (source_type : string) (source : dict)
    (d : gmap string DataFrame) :
  load_sources source_type source (keys source) ∅ = Ok d →
  (∀ k, k ∉ keys source → d !! k = None)
  ∧ (∀ k path, dict_get source k = Some path →
       ∃ df, create_source source_type path = Ok df ∧ d !! k = Some df).
Proof.
  intros Hload. destruct (load_sources_lookup _ _ _ _ _ Hload) as [Hout Hin].
  split.
  - intros k Hk. by rewrite (Hout k Hk).
  - intros k path Hget.
    destruct (Hin k (dict_get_key _ _ _ Hget)) as (path' & df & Hget' & Hdf & Hk).
    exists df. split; [|done]. congruence.
Qed.

End LoadingSources.


(** * The properties on concrete inputs *)

Lemma int_column_length col col' :
  int_column col = Ok col' → length col' = length col.
Proof.
  revert col'. induction col as [|v col IH]; intros col'; simpl.
  - by intros [= <-].
  - destruct (decimal_numeric_of v) as [n|]; [|done].
    intros (rest & Hrest & [= <-])%bind_Ok_inv. simpl. f_equal. by apply IH.
Qed.

Lemma simple_astype_keeps_length : keeps_length simple_astype.
Proof.
  intros t col col'. unfold simple_astype.
  destruct (String.eqb t "object"); [by intros [= <-]|].
  destruct (String.eqb t "int"); [apply int_column_length | done].
Qed.

Lemma decimal_numeric_of_notna v n : decimal_numeric_of v = Some n → isna n = false.
Proof.
  destruct v as [z|s|]; simpl; [by intros [= <-] | | done].
  destruct s as [|a s]; [done|].
  destruct (digits_value 0 (String a s)); simpl; [by intros [= <-] | done].
Qed.

Lemma decimal_coerces : coerces decimal_to_numeric decimal_parsable.
Proof.
  intros col. unfold decimal_to_numeric, decimal_parsable.
  induction col as [|v col IH]; simpl; constructor; [|done].
  destruct (decimal_numeric_of v) as [n|] eqn:E; simpl; [|done].
  by apply decimal_numeric_of_notna in E.
Qed.

Lemma table_mixed_wf : table_wf table_mixed.
Proof. unfold table_wf. simpl. repeat constructor. Qed.

Lemma string_append_assoc (a b c : string) :
  (a ++ (b ++ c))%string = ((a ++ b) ++ c)%string.
Proof.
  induction a as [|x a IH]; [done|].
  change (String x (a ++ (b ++ c))%string = String x ((a ++ b) ++ c)%string).
  by rewrite IH.
Qed.

(** A joined path ends as its file name ends. *)
Lemma os_path_join_endswith path file suffix :
  endswith file suffix = true →
  endswith (os_path_join path file) suffix = true.
Proof.
  intros [p ->]%endswith_spec. apply endswith_spec. unfold os_path_join.
  destruct (String.prefix "/" _); [by exists p|].
  destruct (String.eqb path ""); [by exists p|].
  destruct (endswith path "/").
  - exists (path ++ p)%string. apply string_append_assoc.
  - exists (path ++ "/" ++ p)%string.
    by rewrite !string_append_assoc.
Qed.

(** C1, refuted as stated.  The name [nope] is bound nowhere: the run ends
    with Python's NameError, which is not the error the specification names.
    A configured string that is no name of a transformation at all, a lambda
    expression, is evaluated and applied, and the run writes its join.  And
    an expression that calls the destination before it reads [nope] has
    written the table [A] when the run ends with NameError: the run does not
    halt before any destination write. *)
Lemma unknown_name_is_name_error :
  run0 tables_AB config_unknown_name = mkOutcome [] (Raise (NameError "nope"))
  ∧ exn_class (NameError "nope") ≠ "UnknownTransformationError"
  ∧ ETL.run decimal_to_numeric simple_astype lambda_binding tables_AB config_lambda
    = mkOutcome [inner_AB] (Ok tt)
  ∧ ETL.run decimal_to_numeric simple_astype writing_binding tables_AB
      config_write_then_fail
    = mkOutcome [table_A] (Raise (NameError "nope")).
Proof.
  split; [|split; [|split]];
    [by vm_compute | discriminate | by vm_compute | by vm_compute].
Qed.

(** The run of [config_write_then_fail]: the evaluation of the one step of
    [A] hands [A] to the destination and then fails on the name [nope]. *)
Lemma unresolved_name_ends_run_witness :
  ETL.run decimal_to_numeric simple_astype writing_binding tables_AB
    config_write_then_fail
  = mkOutcome [table_A] (Raise (NameError "nope")).
Proof.
  apply (unresolved_name_ends_run
           decimal_to_numeric simple_astype writing_binding
           tables_AB config_write_then_fail
           [] (mkTableSpec "A" [step_write_nope]) []
           [] step_write_nope []
           (mkWorld tables_AB []) (mkWorld tables_AB [])
           (mkWorld tables_AB [table_A]) (NameError "nope")).
  - reflexivity.
  - reflexivity.
  - reflexivity.
  - reflexivity.
  - by vm_compute.
Defined.

(** Two joins configured, a left join and then an inner join: the inner
    join is what is written. *)
Lemma last_join_witness :
  run0 tables_AB config_two_joins = mkOutcome [inner_AB] (Ok tt).
Proof.
  unfold run0.
  rewrite (last_join_is_output
             decimal_to_numeric simple_astype no_other_binding
             tables_AB config_two_joins (mkWorld tables_AB [])
             [join_AB_left] join_AB_inner).
  - by vm_compute.
  - reflexivity.
  - reflexivity.
  - constructor; [|constructor]. exists left_AB. by vm_compute.
Defined.

(** The run of [config_no_join]: the table stage renames a column of [A],
    and no join assigns [merged]. *)
Lemma no_join_witness :
  run0 tables_AB config_no_join
  = mkOutcome [] (Raise (UnboundLocalError "merged")).
Proof.
  apply (no_join_unbound_local
           decimal_to_numeric simple_astype no_other_binding
           tables_AB config_no_join
           (mkWorld (<["A" := table_A_renamed]> tables_AB) [])).
  - by vm_compute.
  - reflexivity.
Defined.



(** C7.  With the tables [A] and [B] of the specification loaded, a join on
    [id] writes one row (2, b, x) for an inner join, the two rows of [A] with
    [w] missing beside [id] 1 for a left join, and three rows for an outer
    join. *)
Theorem join_example
    (to_numeric : list value -> list value)
    (astype : string -> list value -> result (list value))
    (eval_expr :
       Configuration -> TableSpec -> TransformationStep -> world
       -> result callable * world) :
  ETL.run to_numeric astype eval_expr tables_AB (join_AB "inner")
  = mkOutcome [mkDataFrame ["id"; "v"; "w"] [[VInt 2; VStr "b"; VStr "x"]]] (Ok tt)
  ∧ ETL.run to_numeric astype eval_expr tables_AB (join_AB "left")
    = mkOutcome
        [mkDataFrame ["id"; "v"; "w"]
           [[VInt 1; VStr "a"; VMissing]; [VInt 2; VStr "b"; VStr "x"]]]
        (Ok tt)
  ∧ ∃ out,
      ETL.run to_numeric astype eval_expr tables_AB (join_AB "outer")
      = mkOutcome [out] (Ok tt)
      ∧ length (rows out) = 3.
Proof.
  split; [by vm_compute|]. split; [by vm_compute|].
  eexists. split; [by vm_compute | reflexivity].
Qed.


(** [table_mixed] with [qty] alone coerced: the row of [nut] goes, and the
    columns [name] and [price], which are no keys, keep their cells, the
    text [n/a] included. *)
Lemma set_types_frame_witness :
  columns table_mixed_qty = columns table_mixed
  ∧ ∃ kept,
      kept = List.filter
               (row_parsable decimal_parsable types_qty (columns table_mixed)
                  (keys types_qty))
               (rows table_mixed)
      ∧ kept `sublist_of` rows table_mixed
      ∧ Forall2 (fun r r' =>
                   length r' = length r
                   ∧ ∀ j c, columns table_mixed !! j = Some c →
                            c ∉ keys types_qty → r' !! j = r !! j)
          kept (rows table_mixed_qty).
Proof.
  apply (set_types_frame decimal_to_numeric simple_astype decimal_parsable
           types_qty table_mixed table_mixed_qty).
  - exact decimal_coerces.
  - exact simple_astype_keeps_length.
  - compute_done.
  - exact table_mixed_wf.
  - reflexivity.
Defined.

(** ** The further properties *)

(** The pass for [qty] returns, and [weight] labels no column. *)
Lemma set_types_missing_column_witness :
  set_types decimal_to_numeric simple_astype table_mixed types_two_numeric
  = Raise (KeyError "weight").
Proof.
  apply (set_types_missing_column decimal_to_numeric simple_astype
           types_two_numeric table_mixed ["qty"] "weight" [] table_mixed_qty).
  - reflexivity.
  - by vm_compute.
  - compute_done.
Defined.

(** [table_mixed] and [types_mixed]: all three keys label columns. *)
Lemma set_types_keys_are_columns_witness :
  Forall (fun k => k ∈ columns table_mixed) (keys types_mixed)
  ∧ columns table_mixed_typed = columns table_mixed.
Proof.
  apply (set_types_keys_are_columns decimal_to_numeric simple_astype
           types_mixed table_mixed table_mixed_typed).
  by vm_compute.
Defined.

(** [table_mixed] and [types_mixed]: two well-shaped rows out of four. *)
Lemma set_types_keeps_shape_witness :
  table_wf table_mixed_typed
  ∧ (length (rows table_mixed_typed) ≤ length (rows table_mixed))%nat.
Proof.
  apply (set_types_keeps_shape decimal_to_numeric simple_astype
           types_mixed table_mixed table_mixed_typed).
  - exact simple_astype_keeps_length.
  - exact table_mixed_wf.
  - by vm_compute.
Defined.

(** Two casts to [object] on [table_mixed]: the four rows stay. *)
Lemma set_types_cast_only_witness :
  length (rows table_mixed) = length (rows table_mixed)
  ∧ Forall2 (fun r r' =>
               ∀ j c, columns table_mixed !! j = Some c →
                      c ∉ keys [("name", "object"); ("qty", "object")] →
                      r' !! j = r !! j)
      (rows table_mixed) (rows table_mixed).
Proof.
  apply (set_types_cast_only decimal_to_numeric simple_astype
           [("name", "object"); ("qty", "object")] table_mixed table_mixed).
  - exact simple_astype_keeps_length.
  - compute_done.
  - exact table_mixed_wf.
  - intros k. unfold is_numeric. cbn [dict_get].
    by repeat (destruct (String.eqb _ k); [reflexivity|]).
  - by vm_compute.
Defined.

(** One [rename] step on the table [A] of [tables_AB]. *)
Lemma steps_of_one_table_witness :
  ∃ w',
    ETL.apply_steps decimal_to_numeric simple_astype no_other_binding
      config_no_join (mkTableSpec "A" [rename_v]) [rename_v]
      (mkWorld tables_AB [])
    = (chain decimal_to_numeric simple_astype table_A [rename_v]
         ≫= (fun _ => Ok tt), w')
    ∧ w_written w' = []
    ∧ (∀ n, n ≠ "A" → w_tables w' !! n = tables_AB !! n)
    ∧ (∀ df', chain decimal_to_numeric simple_astype table_A [rename_v] = Ok df' →
         w_tables w' = <["A" := df']> tables_AB).
Proof.
  apply (steps_of_one_table decimal_to_numeric simple_astype no_other_binding
           config_no_join (mkTableSpec "A" [rename_v]) [rename_v]
           (mkWorld tables_AB []) table_A).
  - by vm_compute.
  - repeat constructor.
Defined.

(** A table stage that renames a column of [A]: [B] is untouched. *)
Lemma table_stage_frame_witness :
  dom (<["A" := table_A_renamed]> tables_AB) = dom tables_AB
  ∧ (∀ n, n ∉ map table_name [mkTableSpec "A" [rename_v]] →
          <["A" := table_A_renamed]> tables_AB !! n = tables_AB !! n)
  ∧ @nil DataFrame = [].
Proof.
  refine (table_stage_frame decimal_to_numeric simple_astype no_other_binding
            config_no_join [mkTableSpec "A" [rename_v]]
            (mkWorld tables_AB [])
            (mkWorld (<["A" := table_A_renamed]> tables_AB) []) _ _).
  - repeat constructor.
  - by vm_compute.
Defined.

(** The second entry names the table [Z], which was never loaded. *)
Lemma step_on_missing_table_witness :
  run0 tables_AB config_missing_step_table = mkOutcome [] (Raise (KeyError "Z")).
Proof.
  apply (step_on_missing_table decimal_to_numeric simple_astype no_other_binding
           tables_AB config_missing_step_table
           [mkTableSpec "A" [rename_v]] (mkTableSpec "Z" [rename_v]) []
           rename_v []
           (mkWorld (<["A" := table_A_renamed]> tables_AB) [])).
  - reflexivity.
  - by vm_compute.
  - reflexivity.
  - reflexivity.
  - by vm_compute.
Defined.

(** Two entries for [A], a [rename] and then a [set_types] on the renamed
    column, and the one entry with both steps. *)
Lemma same_table_entries_concatenate_witness :
  ETL.table_transformations decimal_to_numeric simple_astype no_other_binding
    config_no_join
    [mkTableSpec "A" [rename_v];
     mkTableSpec "A" [mkStep "set_types" [("val", "to_numeric")]];
     mkTableSpec "B" [rename_w]]
    (mkWorld tables_AB [])
  = ETL.table_transformations decimal_to_numeric simple_astype no_other_binding
      config_two_joins
      [mkTableSpec "A" [rename_v; mkStep "set_types" [("val", "to_numeric")]];
       mkTableSpec "B" [rename_w]]
      (mkWorld tables_AB []).
Proof.
  apply (same_table_entries_concatenate
           decimal_to_numeric simple_astype no_other_binding
           config_no_join config_two_joins [] "A" [rename_v]
           [mkStep "set_types" [("val", "to_numeric")]]
           [mkTableSpec "B" [rename_w]] (mkWorld tables_AB [])).
  - constructor.
  - repeat constructor.
  - repeat constructor.
  - repeat constructor.
Defined.

(** A [rename] on [A] and a [rename] on [B], in both orders. *)
Lemma different_table_entries_commute_witness :
  ETL.table_transformations decimal_to_numeric simple_astype no_other_binding
    config_two_joins [mkTableSpec "B" [rename_w]; mkTableSpec "A" [rename_v]]
    (mkWorld tables_AB [])
  = (Ok tt,
     mkWorld (<["B" := table_B_renamed]> (<["A" := table_A_renamed]> tables_AB)) []).
Proof.
  apply (different_table_entries_commute
           decimal_to_numeric simple_astype no_other_binding
           config_no_join config_two_joins
           (mkTableSpec "A" [rename_v]) (mkTableSpec "B" [rename_w])
           (mkWorld tables_AB [])).
  - discriminate.
  - repeat constructor.
  - repeat constructor.
  - by vm_compute.
Defined.

(** The left join of [table_A] and [table_B]. *)
Lemma merge_keeps_shape_witness : table_wf left_AB.
Proof.
  apply (merge_keeps_shape table_A table_B left_AB ["id"] "left").
  - unfold table_wf. simpl. repeat constructor.
  - unfold table_wf. simpl. repeat constructor.
  - by vm_compute.
Defined.

(** The row of [table_A] with [id] 1, which [table_B] does not match. *)
Lemma left_join_keeps_left_rows_witness :
  ∃ r', r' ∈ rows left_AB ∧ [VInt 1; VStr "a"] `prefix_of` r'.
Proof.
  apply (left_join_keeps_left_rows table_A table_B left_AB ["id"]).
  - by vm_compute.
  - simpl. apply elem_of_cons. by left.
Defined.


(** The directory [docs] holds a text file only. *)
Lemma no_csv_file_witness :
  CSVFileSource._read_all_csv_files fs_listdir fs_read_csv "docs"
  = Raise (ValueError "No objects to concatenate").
Proof.
  apply (no_csv_file_value_error fs_listdir fs_read_csv "docs" ["readme.txt"]).
  - reflexivity.
  - repeat constructor.
Defined.

(** The directory [data]: the row (2, b) is in both files and once in the
    result. *)
Lemma read_rows_once_witness :
  NoDup (rows table_A_stacked)
  ∧ (∀ r, r ∈ rows table_A_stacked
          ↔ r ∈ rows (mkDataFrame ["id"; "v"] (rows table_A ++ rows table_A2)))
  ∧ columns table_A_stacked = ["id"; "v"]
  ∧ table_wf table_A_stacked.
Proof.
  apply (read_rows_once fs_listdir fs_read_csv "data"
           ["a.csv"; "notes.txt"; "b.csv"] [table_A; table_A2]
           (mkDataFrame ["id"; "v"] (rows table_A ++ rows table_A2))
           table_A_stacked).
  - reflexivity.
  - by vm_compute.
  - by vm_compute.
  - by vm_compute.
Defined.

(** A reader that refuses [notes.txt] reads the directory [data] all the
    same. *)
Lemma only_csv_files_are_read_witness :
  CSVFileSource._read_all_csv_files fs_listdir fs_read_csv "data"
  = CSVFileSource._read_all_csv_files fs_listdir fs_read_csv_only "data".
Proof.
  apply (only_csv_files_are_read fs_listdir fs_read_csv fs_read_csv_only "data").
  intros file Hcsv. unfold fs_read_csv_only.
  by rewrite (os_path_join_endswith "data" file ".csv" Hcsv).
Defined.

(** The two CSV files of [data] share the header [id], [v]. *)
Lemma same_header_files_stack_witness :
  CSVFileSource._read_all_csv_files fs_listdir fs_read_csv "data"
  = Ok table_A_stacked.
Proof.
  apply (same_header_files_stack fs_listdir fs_read_csv "data"
           ["a.csv"; "notes.txt"; "b.csv"] [table_A; table_A2] ["id"; "v"]).
  - reflexivity.
  - by vm_compute.
  - discriminate.
  - compute_done.
  - repeat constructor.
Defined.

(** The source type [json]. *)
Lemma unknown_source_type_witness :
  (∀ k path rest,
     Loading.run fs_listdir fs_read_csv decimal_to_numeric simple_astype
       no_other_binding "json" ((k, path) :: rest) config_two_joins
     = mkOutcome [] (Raise (ValueError "Unknown source type: json")))
  ∧ Loading.run fs_listdir fs_read_csv decimal_to_numeric simple_astype
      no_other_binding "json" [] config_two_joins
    = run0 ∅ config_two_joins.
Proof.
  apply (unknown_source_type fs_listdir fs_read_csv decimal_to_numeric
           simple_astype no_other_binding "json" config_two_joins).
  discriminate.
Defined.

(** One source, [A], read from the directory [data]. *)
Lemma loaded_tables_witness :
  (∀ k, k ∉ keys [("A", "data")] → ({["A" := table_A_stacked]} : gmap string DataFrame) !! k = None)
  ∧ (∀ k path, dict_get [("A", "data")] k = Some path →
       ∃ df, SourceFactory.create_source fs_listdir fs_read_csv "csv" path = Ok df
             ∧ ({["A" := table_A_stacked]} : gmap string DataFrame) !! k = Some df).
Proof.
  apply (loaded_tables fs_listdir fs_read_csv "csv" [("A", "data")]
           {["A" := table_A_stacked]}).
  by vm_compute.
Defined.
